(** * dos-go: a shallow embedding of the load generator and its proxy subsystem

  The development follows the Go sources:
  - [internal/proxy]: [ProxyRotator], [Next], [GetClient], [ValidateProxies],
    [testProxy] (module [Proxy]);
  - [internal/util]: [ReadFileEntries] (module [Util]);
  - [main]: flag validation, the dispatch loop, [sendRequest],
    [processResponse] and the final report (module [Main]).

  Go's fixed-width integers are integers of [Z] with the wrap-around written
  out, [float64] is Rocq's binary64.  Goroutines, buffered channels, the wait
  group and the cancellation context are a transition system whose steps
  are the atomic actions of the program: every interleaving of the
  goroutines is a sequence of such steps.  What the program gets from
  outside (the network, the file system, the clock, the libraries it calls)
  is an argument of the definitions.

  The first part holds the definitions, the second the invariants, the
  third the proofs. *)

From Stdlib Require Import ZArith List String Ascii Bool Lia Permutation.
From Stdlib Require Import Floats.
Import ListNotations.
Open Scope Z_scope.

(** ** Go's integer types *)

Module GoInt.

(** An unsigned [w]-bit integer wraps modulo [2^w]. *)
Definition wrap_unsigned (w z : Z) : Z := z mod 2 ^ w.

(** A signed [w]-bit integer wraps into [[-2^(w-1), 2^(w-1))]. *)
Definition wrap_signed (w z : Z) : Z :=
  (z + 2 ^ (w - 1)) mod 2 ^ w - 2 ^ (w - 1).

Definition uint32 (z : Z) : Z := wrap_unsigned 32 z.
Definition int64 (z : Z) : Z := wrap_signed 64 z.

(** [int] is 64 bits wide on the 64-bit targets Go builds for by default. *)
Definition int_size : Z := 64.
Definition int (z : Z) : Z := wrap_signed int_size z.

Definition max_int64 : Z := 2 ^ 63 - 1.
Definition min_int64 : Z := - 2 ^ 63.

(** Go's [%] truncates towards zero: the remainder has the sign of the
    dividend. *)
Definition rem (a b : Z) : Z := Z.rem a b.

(** [atomic.AddUint32(addr, delta)]: the new value, which is also stored. *)
Definition AddUint32 (old delta : Z) : Z := uint32 (old + delta).

(** [atomic.AddInt64(addr, delta)]. *)
Definition AddInt64 (old delta : Z) : Z := int64 (old + delta).

Definition in_int64 (z : Z) : Prop := min_int64 <= z <= max_int64.

(** [time.Second]: a [time.Duration] is an [int64] count of nanoseconds. *)
Definition Second : Z := 1000000000.

End GoInt.

(** ** Slices *)

Module Slice.

Definition len {A} (l : list A) : Z := Z.of_nat (List.length l).

(** [s[i]]: [None] stands for the run-time panic "index out of range". *)
Definition index {A} (l : list A) (i : Z) : option A :=
  if (0 <=? i) && (i <? len l) then nth_error l (Z.to_nat i) else None.

(** [l] without its element at [i], and [l] with [y] at [i]. *)
Fixpoint remove_at {A} (i : nat) (l : list A) : list A :=
  match i, l with
  | _, [] => []
  | O, _ :: t => t
  | S j, x :: t => x :: remove_at j t
  end.

Fixpoint set_at {A} (i : nat) (y : A) (l : list A) : list A :=
  match i, l with
  | _, [] => []
  | O, _ :: t => y :: t
  | S j, x :: t => x :: set_at j y t
  end.

End Slice.

(** ** internal/proxy: the rotator *)

Module Proxy.

Import GoInt.

Record ProxyRotator := mkRotator {
  proxies : list string;
  current : Z   (* uint32 *)
}.

Definition NewProxyRotator (ps : list string) : ProxyRotator :=
  {| proxies := ps; current := 0 |}.

(** What a call does: it returns a string, or the goroutine panics on the
    slice access with the offending index. *)
Inductive outcome :=
| Returned (s : string)
| IndexOutOfRange (i : Z).

(** [Next]: the atomic increment is the only access to shared mutable
    state, so a call is one atomic transition of the rotator; concurrent
    callers are ordered by their increments. *)
Definition Next (p : ProxyRotator) : outcome * ProxyRotator :=
  if Slice.len (proxies p) =? 0 then (Returned "", p)
  else
    let n := AddUint32 (current p) 1 in
    let p' := {| proxies := proxies p; current := n |} in
    let i := rem (int (int n - 1)) (Slice.len (proxies p)) in
    match Slice.index (proxies p) i with
    | Some s => (Returned s, p')
    | None => (IndexOutOfRange i, p')
    end.

(** The rotator after [k] calls, and what the [i]-th call (counted from 1)
    on a fresh rotator does. *)
Definition after (k : N) (p : ProxyRotator) : ProxyRotator :=
  N.iter k (fun q => snd (Next q)) p.

Definition nth_call (ps : list string) (i : Z) : outcome :=
  fst (Next (after (Z.to_N (i - 1)) (NewProxyRotator ps))).


(** *** The client built by [GetClient] *)

(** What one dial attempt of a client amounts to.  [Direct] is what
    fasthttp does for a client without a [Dial] hook. *)
Inductive dial_result :=
| DialError (msg : string)
| ViaSocks5 (proxyURL addr : string)
| Direct (addr : string)
| DialPanic (i : Z).

(** The [Dial] closure captures the rotator by pointer: it is a transition
    of the shared rotator. *)
Definition Dialer := string -> ProxyRotator -> dial_result * ProxyRotator.

Record Client := mkClient {
  ReadTimeout : Z;
  WriteTimeout : Z;
  MaxConnDuration : Z;
  InsecureSkipVerify : bool;
  Dial : option Dialer
}.

Definition rotatorDial : Dialer := fun addr p =>
  match Next p with
  | (Returned proxy, p') =>
      if String.eqb proxy ""
      then (DialError "proxy address is empty", p')
      else (ViaSocks5 ("socks5://" ++ proxy) addr, p')
  | (IndexOutOfRange i, p') => (DialPanic i, p')
  end.

Definition GetClient : Client :=
  {| ReadTimeout := 5 * Second;
     WriteTimeout := 5 * Second;
     MaxConnDuration := 30 * Second;
     InsecureSkipVerify := true;
     Dial := Some rotatorDial |}.

(** [&fasthttp.Client{}], the client of a run without a proxy list. *)
Definition directClient : Client :=
  {| ReadTimeout := 0; WriteTimeout := 0; MaxConnDuration := 0;
     InsecureSkipVerify := false; Dial := None |}.

(** A new physical connection of client [c] to [addr]. *)
Definition dial (c : Client) (addr : string) (p : ProxyRotator)
  : dial_result * ProxyRotator :=
  match Dial c with
  | Some d => d addr p
  | None => (Direct addr, p)
  end.

(** *** [ValidateProxies] *)

(** [testProxy]: [dialErr] is the error of [net.DialTimeout("tcp", proxy,
    timeout)], [None] for [nil]. *)
Definition testProxy (dialErr : option string) : bool :=
  match dialErr with
  | Some _ => false
  | None => true
  end.

(** The goroutines of [ValidateProxies] that have not finished yet, the two
    buffered channels, and the log of the probes made so far (address and
    verdict of [testProxy]); the log is not program state. *)
Record vstate := mkV {
  pending : list string;
  validProxies : list string;
  invalidProxies : list string;
  probes : list (string * bool)
}.

Definition vinit (ps : list string) : vstate :=
  {| pending := ps; validProxies := []; invalidProxies := []; probes := [] |}.

(** One goroutine runs to completion: goroutine [i] of the pending ones
    gets [dialErr] from the network and sends its address on one of the
    channels.  A send on a buffered channel proceeds only while the buffer
    holds fewer than [cap] values; [None] means the step cannot be taken. *)
Definition vstep (cap : nat) (i : nat) (dialErr : option string) (s : vstate)
  : option vstate :=
  match nth_error (pending s) i with
  | None => None
  | Some proxy =>
      if testProxy dialErr then
        if (List.length (validProxies s) <? cap)%nat then
          Some {| pending := Slice.remove_at i (pending s);
                  validProxies := validProxies s ++ [proxy];
                  invalidProxies := invalidProxies s;
                  probes := probes s ++ [(proxy, true)] |}
        else None
      else
        if (List.length (invalidProxies s) <? cap)%nat then
          Some {| pending := Slice.remove_at i (pending s);
                  validProxies := validProxies s;
                  invalidProxies := invalidProxies s ++ [proxy];
                  probes := probes s ++ [(proxy, false)] |}
        else None
  end.

(** A schedule: which pending goroutine finishes next, and with what
    network answer. *)
Fixpoint vrun (cap : nat) (sched : list (nat * option string)) (s : vstate)
  : option vstate :=
  match sched with
  | [] => Some s
  | (i, e) :: rest =>
      match vstep cap i e s with
      | Some s' => vrun cap rest s'
      | None => None
      end
  end.

(** [ValidateProxies]: [wg.Wait()] returns once no goroutine is pending; the
    closed channels are then drained in order into the two slices. *)
Definition ValidateProxies (ps : list string) (sched : list (nat * option string))
  : option (list string * list string) :=
  match vrun (List.length ps) sched (vinit ps) with
  | Some s =>
      match pending s with
      | [] => Some (validProxies s, invalidProxies s)
      | _ :: _ => None   (* still blocked in wg.Wait() *)
      end
  | None => None
  end.

(** A schedule that lets one of the pending goroutines finish at each
    step, [n] of them being pending at first, until none is left. *)
Fixpoint complete_schedule (n : nat) (sched : list (nat * option string))
  : bool :=
  match sched, n with
  | [], O => true
  | (i, _) :: rest, S n' => (i <? n)%nat && complete_schedule n' rest
  | _, _ => false
  end.

(** A logged probe whose connect failed. *)
Definition failed (x : string * bool) : bool := negb (snd x).

(** The probes made along a schedule, in the order they resolved. *)
Definition probe_log (ps : list string) (sched : list (nat * option string))
  : list (string * bool) :=
  match vrun (List.length ps) sched (vinit ps) with
  | Some s => probes s
  | None => []
  end.

(** The schedule in which the goroutines finish in input order, the network
    answering [net_ok] for each address. *)
Definition in_order (net_ok : string -> bool) (ps : list string)
  : list (nat * option string) :=
  map (fun p => (O, if net_ok p then None else Some "connect failed"%string)) ps.

End Proxy.

(** ** internal/util *)

Module Util.

(** [strings.TrimSpace] removes from the two ends of a string the white
    space of Unicode, as [unicode.IsSpace] defines it.  A Go string is a
    sequence of bytes, read as UTF-8; the white space code points and their
    encodings are

      U+0009 .. U+000D, U+0020        09 .. 0D, 20
      U+0085, U+00A0                  C2 85, C2 A0
      U+1680                          E1 9A 80
      U+2000 .. U+200A                E2 80 80 .. E2 80 8A
      U+2028, U+2029, U+202F          E2 80 A8, E2 80 A9, E2 80 AF
      U+205F                          E2 81 9F
      U+3000                          E3 80 80

    A byte that is not part of a well-formed encoding decodes to U+FFFD,
    which is not white space, so the trimming stops at it. *)
Definition byte (c : ascii) : nat := nat_of_ascii c.

(** The white space of one byte, of two bytes and of three bytes. *)
Definition is_space (c : ascii) : bool :=
  ((9 <=? byte c) && (byte c <=? 13) || (byte c =? 32))%nat.

Definition is_space2 (a b : ascii) : bool :=
  ((byte a =? 194) && ((byte b =? 133) || (byte b =? 160)))%nat.

Definition is_space3 (a b c : ascii) : bool :=
  (((byte a =? 225) && (byte b =? 154) && (byte c =? 128))
   || ((byte a =? 226) && (byte b =? 128)
       && (((128 <=? byte c) && (byte c <=? 138))
           || (byte c =? 168) || (byte c =? 169) || (byte c =? 175)))
   || ((byte a =? 226) && (byte b =? 129) && (byte c =? 159))
   || ((byte a =? 227) && (byte b =? 128) && (byte c =? 128)))%nat.

(** The string starts with a white space rune. *)
Definition leading_space (s : string) : bool :=
  match s with
  | String a (String b (String c _)) =>
      is_space a || is_space2 a b || is_space3 a b c
  | String a (String b EmptyString) => is_space a || is_space2 a b
  | String a EmptyString => is_space a
  | EmptyString => false
  end.

(** The white space runes at the start are dropped, one after the other. *)
Fixpoint trim_left (s : string) : string :=
  match s with
  | EmptyString => EmptyString
  | String a s1 =>
      if is_space a then trim_left s1
      else
        match s1 with
        | EmptyString => s
        | String b s2 =>
            if is_space2 a b then trim_left s2
            else
              match s2 with
              | EmptyString => s
              | String c s3 => if is_space3 a b c then trim_left s3 else s
              end
        end
  end.

(** The string is made of white space runes only. *)
Fixpoint all_space (s : string) : bool :=
  match s with
  | EmptyString => true
  | String a s1 =>
      if is_space a then all_space s1
      else
        match s1 with
        | EmptyString => false
        | String b s2 =>
            if is_space2 a b then all_space s2
            else
              match s2 with
              | EmptyString => false
              | String c s3 => is_space3 a b c && all_space s3
              end
        end
  end.

(** The white space runes at the end are dropped: the string is cut where
    nothing but white space follows.  No encoding of a white space rune
    ends with another one, so this is what dropping them one after the
    other from the end leaves. *)
Fixpoint trim_right (s : string) : string :=
  match s with
  | EmptyString => EmptyString
  | String c s' =>
      if all_space s then EmptyString else String c (trim_right s')
  end.

Definition TrimSpace (s : string) : string := trim_right (trim_left s).

(** The string ends with a white space rune: one of its non-empty suffixes
    is made of white space only. *)
Fixpoint trailing_space (s : string) : bool :=
  match s with
  | EmptyString => false
  | String c s' => all_space s || trailing_space s'
  end.

(** What opening and scanning a file gives: [os.Open] fails, or the scanner
    yields lines and ends with or without an error. *)
Inductive file :=
| OpenError (e : string)
| Scanned (lines : list string) (scanErr : option string).

(** [ReadFileEntries]: [inl] is the list of entries, [inr] the error. *)
Definition ReadFileEntries (fs : string -> file) (filePath : string)
  : list string + string :=
  match fs filePath with
  | OpenError e => inr e
  | Scanned lines scanErr =>
      let entries :=
        filter (fun line => negb (String.eqb line ""))
               (map TrimSpace lines) in
      match scanErr with
      | Some e => inr e
      | None => inl entries
      end
  end.

End Util.

(** ** The part of fasthttp the program relies on

    [github.com/valyala/fasthttp] is a dependency, not part of the
    repository: the method names are its constants, and [StatusCode]
    follows the accessor of its response header. *)

Module Fasthttp.

Definition MethodGet : string := "GET".
Definition MethodPost : string := "POST".
Definition MethodPut : string := "PUT".
Definition MethodPatch : string := "PATCH".
Definition MethodDelete : string := "DELETE".
Definition MethodHead : string := "HEAD".
Definition MethodOptions : string := "OPTIONS".
Definition MethodConnect : string := "CONNECT".
Definition MethodTrace : string := "TRACE".

Definition StatusOK : Z := 200.

(** A response object; [statusCode] is the field of its header, [0] while
    no status line has been parsed into it. *)
Record Response := mkResponse { statusCode : Z }.

(** [AcquireResponse] hands out a reset response. *)
Definition AcquireResponse : Response := {| statusCode := 0 |}.

(** [Response.StatusCode] as fasthttp's header accessor computes it
    ([if h.statusCode == 0 { return StatusOK }; return h.statusCode]): an
    unset status code reads as [StatusOK]. *)
Definition StatusCode (resp : Response) : Z :=
  if statusCode resp =? 0 then StatusOK else statusCode resp.

End Fasthttp.

(** ** main *)

Module Main.

Import GoInt.

(** *** Flags and start-up *)

Record Flags := mkFlags {
  printVersion : bool;
  targetURL : string;
  method : string;
  delayBetweenRequests : Z;
  maxGoroutines : Z;
  requestTimeout : Z;
  logLevel : string;
  userAgent : string;
  userAgentsListFile : string;
  executionTime : Z;
  prettyLog : bool;
  proxyList : string;
  startingTimeoutSeconds : Z
}.

(** The collaborators of start-up: [strings.ToUpper], [zerolog.ParseLevel]
    and [url.Parse] (an error or [None]), the file system, and the first
    result of [proxy.ValidateProxies] on the network of the run. *)
Record Env := mkEnv {
  ToUpper : string -> string;
  ParseLevel : string -> option string;
  url_Parse : string -> option string;
  fs : string -> Util.file;
  validated : list string -> list string
}.

Definition allowedHTTPMethods : list string :=
  [Fasthttp.MethodGet; Fasthttp.MethodPost; Fasthttp.MethodPut;
   Fasthttp.MethodPatch; Fasthttp.MethodDelete; Fasthttp.MethodHead;
   Fasthttp.MethodOptions; Fasthttp.MethodConnect; Fasthttp.MethodTrace].

(** [slices.Contains] on strings. *)
Definition Contains (l : list string) (x : string) : bool :=
  existsb (String.eqb x) l.

(** What the dispatch loop starts from. *)
Record Runtime := mkRuntime {
  rt_method : string;
  rt_client : Proxy.Client;
  rt_rotator : Proxy.ProxyRotator;
  rt_limiter : option Z;
  rt_userAgentList : list string;
  rt_capacity : Z
}.

(** How [main] leaves its start-up phase: it printed the version and
    returned, it ended the process through [log.Fatal()] (which exits with
    status 1), or it went on to the dispatch loop. *)
Inductive startup :=
| PrintedVersion
| Fatal (msg : string)
| Dispatching (rt : Runtime).

(** The network of the run is one on which [ValidateProxies] can give the
    result [validated] stands for. *)
Definition legal_validation (validated : list string -> list string) : Prop :=
  forall ps, exists sched invalid,
    Proxy.ValidateProxies ps sched = Some (validated ps, invalid).

Definition main_startup (env : Env) (f : Flags) : startup :=
  if printVersion f then PrintedVersion else
  let method' := ToUpper env (method f) in
  match ParseLevel env (logLevel f) with
  | Some e => Fatal e
  | None =>
  match (if String.eqb (userAgentsListFile f) "" then inl []
         else Util.ReadFileEntries (fs env) (userAgentsListFile f)) with
  | inr _ => Fatal "Failed to read user agent list"
  | inl userAgentList =>
  let proxied :=
    if String.eqb (proxyList f) "" then
      inl (Proxy.directClient, Proxy.NewProxyRotator [])
    else
      match Util.ReadFileEntries (fs env) (proxyList f) with
      | inr e => inr e
      | inl proxies =>
          let validProxies := validated env proxies in
          inl (Proxy.GetClient, Proxy.NewProxyRotator validProxies)
      end in
  match proxied with
  | inr _ => Fatal "Failed to read proxy list"
  | inl (client, rotator) =>
  let limiter :=
    if delayBetweenRequests f =? 0 then None
    else Some (delayBetweenRequests f) in
  match url_Parse env (targetURL f) with
  | Some _ => Fatal "Invalid targetURL"
  | None =>
  if String.eqb (targetURL f) "" then Fatal "targetURL is required"
  else if delayBetweenRequests f <? 0
  then Fatal "delayBetweenRequests must be non-negative"
  else if maxGoroutines f <? 1 then Fatal "maxGoroutines must be at least 1"
  else if negb (Contains allowedHTTPMethods method')
  then Fatal "invalid HTTP method"
  else Dispatching {| rt_method := method';
                      rt_client := client;
                      rt_rotator := rotator;
                      rt_limiter := limiter;
                      rt_userAgentList := userAgentList;
                      rt_capacity := maxGoroutines f |}
  end end end end.

(** [strings.ToUpper].  A string of ASCII bytes takes the fast path of the
    library function, which maps the bytes [a] .. [z] and keeps every other
    byte.  On a string that holds a byte beyond ASCII the library maps each
    rune by [unicode.ToUpper], whose tables are not reproduced here:
    [beyond] stands for the library on those strings. *)
Definition upper_ascii (c : ascii) : ascii :=
  let n := nat_of_ascii c in
  if ((97 <=? n) && (n <=? 122))%nat then ascii_of_nat (n - 32) else c.

Fixpoint ascii_ToUpper (s : string) : string :=
  match s with
  | EmptyString => EmptyString
  | String c s' => String (upper_ascii c) (ascii_ToUpper s')
  end.

Fixpoint is_ascii (s : string) : bool :=
  match s with
  | EmptyString => true
  | String c s' => (nat_of_ascii c <? 128)%nat && is_ascii s'
  end.

Definition strings_ToUpper (beyond : string -> string) (s : string) : string :=
  if is_ascii s then ascii_ToUpper s else beyond s.

(** *** Outcomes of request attempts *)

Record Result := mkResult {
  status : Z;
  err : option string;
  duration : Z     (* time.Duration: int64 nanoseconds *)
}.

(** What [client.DoTimeout(req, resp, requestTimeout)] did in one attempt:
    how it left the response object, the error it returned, and the time
    [time.Since(start)] read afterwards. *)
Record Attempt := mkAttempt {
  filled : Fasthttp.Response -> Fasthttp.Response;
  doErr : option string;
  elapsed : Z
}.

(** The [Result] that [sendRequest] builds; [statusOf] is the library's
    [Response.StatusCode]. *)
Definition sendRequest_Result (statusOf : Fasthttp.Response -> Z) (a : Attempt)
  : Result :=
  let resp := Fasthttp.AcquireResponse in
  let resp' := filled a resp in
  {| status := statusOf resp'; duration := elapsed a; err := doErr a |}.

(** An attempt that produced no response: the call failed and left the
    response object as it was acquired. *)
Definition no_response (a : Attempt) : Prop :=
  doErr a <> None /\ filled a Fasthttp.AcquireResponse = Fasthttp.AcquireResponse.

(** *** The final report *)

(** Conversion of an [int64] to [float64]. *)
Definition float64 (z : Z) : float :=
  if z <? 0 then
    if z =? min_int64 then (-0x1p63)%float
    else (- PrimFloat.of_uint63 (Uint63.of_Z (- z)))%float
  else PrimFloat.of_uint63 (Uint63.of_Z z).

(** [Duration.Seconds] of package [time]. *)
Definition Seconds (d : Z) : float :=
  (float64 (Z.quot d GoInt.Second)
   + float64 (Z.rem d GoInt.Second) / 1e9)%float.

Record Report := mkReport {
  sent_requests : Z;
  errors : Z;
  average_request_duration : float;
  requests_per_second : float
}.

Definition finalReport (sentRequestCount errCount totalDuration sinceStart : Z)
  : Report :=
  let avgDuration :=
    if sentRequestCount >? 0
    then (float64 totalDuration / float64 sentRequestCount)%float
    else 0%float in
  let rps := (float64 sentRequestCount / Seconds sinceStart)%float in
  {| sent_requests := sentRequestCount;
     errors := errCount;
     average_request_duration := avgDuration;
     requests_per_second := rps |}.

(** *** The goroutines of a run

    The dispatcher goroutine, the senders, the aggregation tasks and [main]
    itself run concurrently; a state of the run records where each of them
    stands, the two buffered channels, the context and the counters. *)

(** The dispatcher is at its outer [select], at the inner [select] of the
    [default] branch, or has returned. *)
Inductive dispatcher_pc := DSelect | DAdmit | DReturned.

(** A sender is performing its request, is at the [select] that delivers
    its [Result], or is in the deferred [select] that releases its slot. *)
Inductive sender_pc := SRequest | SDeliver (r : Result) | SRelease.

(** The next atomic action of a [processResponse] task. *)
Inductive agg_pc := AErr | ASent | ADuration | ADone.

(** [executionTimer]: armed, expired with its tick in the channel, tick
    taken. *)
Inductive timer_state := TArmed | TFired | TDrained.

Inductive main_pc := MWaitCtx | MWaitWg | MJoined | MReported (rep : Report).

Record state := mkState {
  sem : nat;                      (* values buffered in [sem] *)
  respChan : list Result;         (* values buffered in [respChan] *)
  ctxDone : bool;                 (* [ctx.Done()] is closed *)
  timer : timer_state;
  disp : dispatcher_pc;
  senders : list sender_pc;
  aggs : list (agg_pc * Result);
  wg : Z;
  errCount : Z;
  sentRequestCount : Z;
  totalDuration : Z;
  mainG : main_pc;
  received : list Result          (* every [Result] taken off [respChan]; not program state *)
}.

Definition init : state :=
  mkState 0 [] false TArmed DSelect [] [] 0 0 0 0 MWaitCtx [].

Definition set_sem v s := mkState v (respChan s) (ctxDone s) (timer s) (disp s) (senders s) (aggs s) (wg s) (errCount s) (sentRequestCount s) (totalDuration s) (mainG s) (received s).
Definition set_respChan v s := mkState (sem s) v (ctxDone s) (timer s) (disp s) (senders s) (aggs s) (wg s) (errCount s) (sentRequestCount s) (totalDuration s) (mainG s) (received s).
Definition set_ctxDone v s := mkState (sem s) (respChan s) v (timer s) (disp s) (senders s) (aggs s) (wg s) (errCount s) (sentRequestCount s) (totalDuration s) (mainG s) (received s).
Definition set_timer v s := mkState (sem s) (respChan s) (ctxDone s) v (disp s) (senders s) (aggs s) (wg s) (errCount s) (sentRequestCount s) (totalDuration s) (mainG s) (received s).
Definition set_disp v s := mkState (sem s) (respChan s) (ctxDone s) (timer s) v (senders s) (aggs s) (wg s) (errCount s) (sentRequestCount s) (totalDuration s) (mainG s) (received s).
Definition set_senders v s := mkState (sem s) (respChan s) (ctxDone s) (timer s) (disp s) v (aggs s) (wg s) (errCount s) (sentRequestCount s) (totalDuration s) (mainG s) (received s).
Definition set_aggs v s := mkState (sem s) (respChan s) (ctxDone s) (timer s) (disp s) (senders s) v (wg s) (errCount s) (sentRequestCount s) (totalDuration s) (mainG s) (received s).
Definition set_wg v s := mkState (sem s) (respChan s) (ctxDone s) (timer s) (disp s) (senders s) (aggs s) v (errCount s) (sentRequestCount s) (totalDuration s) (mainG s) (received s).
Definition set_errCount v s := mkState (sem s) (respChan s) (ctxDone s) (timer s) (disp s) (senders s) (aggs s) (wg s) v (sentRequestCount s) (totalDuration s) (mainG s) (received s).
Definition set_sentRequestCount v s := mkState (sem s) (respChan s) (ctxDone s) (timer s) (disp s) (senders s) (aggs s) (wg s) (errCount s) v (totalDuration s) (mainG s) (received s).
Definition set_totalDuration v s := mkState (sem s) (respChan s) (ctxDone s) (timer s) (disp s) (senders s) (aggs s) (wg s) (errCount s) (sentRequestCount s) v (mainG s) (received s).
Definition set_mainG v s := mkState (sem s) (respChan s) (ctxDone s) (timer s) (disp s) (senders s) (aggs s) (wg s) (errCount s) (sentRequestCount s) (totalDuration s) v (received s).
Definition set_received v s := mkState (sem s) (respChan s) (ctxDone s) (timer s) (disp s) (senders s) (aggs s) (wg s) (errCount s) (sentRequestCount s) (totalDuration s) (mainG s) v.

(** The branch a sender takes at the [select] it stands at: the channel
    operation, or [<-ctx.Done()]. *)
Inductive branch := OnChannel | OnDone.

(** What moves a sender: its request is over and [res] is built, or it
    takes a branch of its [select]. *)
Inductive sender_event :=
| Finished (res : Result)
| Select (b : branch).

(** The atomic actions of a run.  [i] selects a goroutine among the senders
    or among the aggregation tasks. *)
Inductive action :=
| Interrupt                       (* os.Interrupt cancels the context *)
| TimerFire                       (* executionTimer expires *)
| DispDefault                     (* outer select: default (a limiter only delays it) *)
| DispAdmit                       (* inner select: sem <- struct{}{}; go sendRequest *)
| DispAdmitCancelled              (* inner select: <-ctx.Done() *)
| DispRecv                        (* outer select: res := <-respChan; go processResponse *)
| DispTimer                       (* outer select: <-executionTimer.C *)
| DispDone                        (* outer select: <-ctx.Done() *)
| Send (i : nat) (ev : sender_event)  (* sender i takes its next action *)
| Agg (i : nat)                   (* aggregation task i takes its next action *)
| MainCtxDone                     (* <-ctx.Done() in main *)
| MainWgWait                      (* wg.Wait() returns *)
| MainReport (sinceStart : Z).    (* the counters are read and reported *)

(** A case of the dispatcher's outer [select] other than [default] can
    proceed; [default] is taken only when none can. *)
Definition other_case_ready (s : state) : bool :=
  match respChan s, timer s, ctxDone s with
  | [], TArmed, false => false
  | [], TDrained, false => false
  | _, _, _ => true
  end.

Definition is_nil (e : option string) : bool :=
  match e with
  | None => true
  | Some _ => false
  end.

(** [sendRequest]: the action of a sender that stands at [pc], on the
    channels, and where the sender stands afterwards ([None]: it has
    returned).  The request itself is over when [DoTimeout] has returned and
    [res] is built; the [select] that delivers [res] sends it on [respChan]
    if the buffer has room, or gives up if the context is cancelled; the
    deferred [select] takes a value out of [sem], or gives up if the context
    is cancelled.  The outer [None] means the action cannot proceed. *)
Definition sendRequest (cap : nat) (pc : sender_pc) (ev : sender_event)
                       (s : state) : option (state * option sender_pc) :=
  match pc, ev with
  | SRequest, Finished res => Some (s, Some (SDeliver res))
  | SDeliver res, Select OnChannel =>
      if (List.length (respChan s) <? cap)%nat
      then Some (set_respChan (respChan s ++ [res]) s, Some SRelease)
      else None
  | SDeliver _, Select OnDone =>
      if ctxDone s then Some (s, Some SRelease) else None
  | SRelease, Select OnChannel =>
      match sem s with
      | S n => Some (set_sem n s, None)
      | O => None
      end
  | SRelease, Select OnDone =>
      if ctxDone s then Some (s, None) else None
  | _, _ => None
  end.

(** [processResponse]: the atomic action of a task that stands at [pc], on
    the counters and the wait group, and where the task stands afterwards
    ([None]: it has returned, its deferred [wg.Done()] being its last
    action). *)
Definition processResponse (pc : agg_pc) (res : Result) (s : state)
  : state * option agg_pc :=
  match pc with
  | AErr =>
      (if is_nil (err res) then s
       else set_errCount (AddInt64 (errCount s) 1) s,
       Some ASent)
  | ASent =>
      (set_sentRequestCount (AddInt64 (sentRequestCount s) 1) s,
       Some ADuration)
  | ADuration =>
      (set_totalDuration
         (AddInt64 (totalDuration s) (int64 (duration res))) s,
       Some ADone)
  | ADone => (set_wg (wg s - 1) s, None)
  end.

(** One action from a state, for an admission channel and a result channel
    of capacity [cap] ([*maxGoroutines]) and the [-exec_time] flag; [None]
    when the action cannot proceed in that state. *)
Definition exec (cap : nat) (execTime : Z) (a : action) (s : state)
  : option state :=
  match a with
  | Interrupt => Some (set_ctxDone true s)
  | TimerFire =>
      match timer s with
      | TArmed => Some (set_timer TFired s)
      | _ => None
      end
  | DispDefault =>
      match disp s with
      | DSelect =>
          if other_case_ready s then None else Some (set_disp DAdmit s)
      | _ => None
      end
  | DispAdmit =>
      match disp s with
      | DAdmit =>
          if (sem s <? cap)%nat then
            Some (set_disp DSelect
                   (set_senders (senders s ++ [SRequest])
                     (set_sem (S (sem s)) s)))
          else None
      | _ => None
      end
  | DispAdmitCancelled =>
      match disp s with
      | DAdmit => if ctxDone s then Some (set_disp DReturned s) else None
      | _ => None
      end
  | DispRecv =>
      match disp s, respChan s with
      | DSelect, res :: rest =>
          Some (set_received (received s ++ [res])
                 (set_aggs (aggs s ++ [(AErr, res)])
                   (set_wg (wg s + 1)
                     (set_respChan rest s))))
      | _, _ => None
      end
  | DispTimer =>
      match disp s, timer s with
      | DSelect, TFired =>
          if execTime =? 0 then Some (set_timer TDrained s)
          else Some (set_ctxDone true (set_timer TDrained s))
      | _, _ => None
      end
  | DispDone =>
      match disp s with
      | DSelect => if ctxDone s then Some (set_disp DReturned s) else None
      | _ => None
      end
  | Send i ev =>
      match nth_error (senders s) i with
      | Some pc =>
          match sendRequest cap pc ev s with
          | Some (s1, Some pc') =>
              Some (set_senders (Slice.set_at i pc' (senders s)) s1)
          | Some (s1, None) =>
              Some (set_senders (Slice.remove_at i (senders s)) s1)
          | None => None
          end
      | None => None
      end
  | Agg i =>
      match nth_error (aggs s) i with
      | Some (pc, res) =>
          match processResponse pc res s with
          | (s1, Some pc') =>
              Some (set_aggs (Slice.set_at i (pc', res) (aggs s)) s1)
          | (s1, None) =>
              Some (set_aggs (Slice.remove_at i (aggs s)) s1)
          end
      | None => None
      end
  | MainCtxDone =>
      match mainG s with
      | MWaitCtx => if ctxDone s then Some (set_mainG MWaitWg s) else None
      | _ => None
      end
  | MainWgWait =>
      match mainG s with
      | MWaitWg => if wg s =? 0 then Some (set_mainG MJoined s) else None
      | _ => None
      end
  | MainReport sinceStart =>
      match mainG s with
      | MJoined =>
          Some (set_mainG
                  (MReported (finalReport (sentRequestCount s) (errCount s)
                                          (totalDuration s) sinceStart)) s)
      | _ => None
      end
  end.

Fixpoint run (cap : nat) (execTime : Z) (acts : list action) (s : state)
  : option state :=
  match acts with
  | [] => Some s
  | a :: rest =>
      match exec cap execTime a s with
      | Some s' => run cap execTime rest s'
      | None => None
      end
  end.

Definition step (cap : nat) (execTime : Z) (s s' : state) : Prop :=
  exists a, exec cap execTime a s = Some s'.

Definition reachable (cap : nat) (execTime : Z) (s : state) : Prop :=
  exists acts, run cap execTime acts init = Some s.

(** *** The request a sender builds *)

Record Request := mkRequest {
  requestURI : string;
  reqMethod : string;
  reqUserAgent : option string    (* [None]: the header is left unset *)
}.

(** [rand.Intn(n)]: it panics for [n <= 0] and otherwise returns a value of
    [[0, n)]; [draw] is the raw output of the generator. *)
Definition Intn (draw n : Z) : option Z :=
  if n <=? 0 then None else Some (draw mod n).

(** The request of [sendRequest]: the target URL, the method, and a user
    agent drawn from the list when there is one, the [-user_agent] flag
    otherwise, unless it is empty.  [None] stands for a run-time panic, of
    [rand.Intn] or of the slice access. *)
Definition buildRequest (f : Flags) (method' : string)
                        (userAgentList : list string) (draw : Z)
  : option Request :=
  let req := {| requestURI := targetURL f; reqMethod := method';
                reqUserAgent := None |} in
  if Slice.len userAgentList >? 0 then
    match Intn draw (Slice.len userAgentList) with
    | None => None
    | Some k =>
        match Slice.index userAgentList k with
        | None => None
        | Some randomUserAgent =>
            Some {| requestURI := requestURI req; reqMethod := reqMethod req;
                    reqUserAgent := Some randomUserAgent |}
        end
    end
  else if negb (String.eqb (userAgent f) "") then
    Some {| requestURI := requestURI req; reqMethod := reqMethod req;
            reqUserAgent := Some (userAgent f) |}
  else Some req.

(** [validated] is a result of [ValidateProxies] on a network that answers
    the probe of an address by [net_ok]. *)
Definition validation_on (net_ok : string -> bool)
                         (validated : list string -> list string) : Prop :=
  forall ps, exists sched invalid,
    Proxy.ValidateProxies ps sched = Some (validated ps, invalid) /\
    forall x, In x (Proxy.probe_log ps sched) -> snd x = net_ok (fst x).

(** The actions of the environment, as opposed to those of the program's
    goroutines. *)
Definition environment (a : action) : bool :=
  match a with
  | Interrupt | TimerFire => true
  | _ => false
  end.

(** The admissions among the actions of a run. *)
Definition is_admit (a : action) : bool :=
  match a with
  | DispAdmit => true
  | _ => false
  end.

Definition admissions (acts : list action) : Z :=
  Slice.len (filter is_admit acts).

End Main.

(** ** The copy of [main] that sends copies of a template request

    It differs from [Main] in its average, which it computes by an integer
    division. *)

Module TemplateMain.

Import GoInt.

(** Go's [/] on [int64]: a run-time panic ([None]) on a zero divisor, and
    otherwise the quotient truncated towards zero, wrapped. *)
Definition quo (a b : Z) : option Z :=
  if b =? 0 then None else Some (int64 (Z.quot a b)).

(** [avgDuration] of that copy:
    [if sentRequestCount > 0 { avgDuration = float64(sentRequestCount / totalDuration) }]. *)
Definition avgDuration (sentRequestCount totalDuration : Z) : option float :=
  if sentRequestCount >? 0 then
    match quo sentRequestCount totalDuration with
    | Some q => Some (Main.float64 q)
    | None => None
    end
  else Some 0%float.

End TemplateMain.

(** * Concrete inputs used in the examples *)

Module Examples.

Import Main.

(** The flags of the examples are strings of ASCII bytes, so that
    [strings.ToUpper] takes its fast path on them; the stand-in for the
    rest of the library function is not reached. *)
Definition beyond_ascii (s : string) : string := s.

(** U+00A0, U+2003 and U+0009 in UTF-8. *)
Definition nbsp : string :=
  String (ascii_of_nat 194) (String (ascii_of_nat 160) "").
Definition em_space : string :=
  String (ascii_of_nat 226)
         (String (ascii_of_nat 128) (String (ascii_of_nat 131) "")).
Definition tab : string := String (ascii_of_nat 9) "".

(** A proxy list whose lines carry white space beyond ASCII. *)
Definition fs_padded (path : string) : Util.file :=
  Util.Scanned [(nbsp ++ "127.0.0.1:4145" ++ em_space)%string;
                (em_space ++ nbsp ++ tab)%string;
                ("10.0.0.1:9" ++ tab ++ nbsp)%string] None.

(** A file system with one proxy list, and a network on which no proxy
    answers. *)
Definition fs_one (path : string) : Util.file :=
  if String.eqb path "proxies.txt"
  then Util.Scanned ["127.0.0.1:4145"; "  127.0.0.1:1080 "; ""; "10.0.0.1:9"]%string None
  else Util.OpenError "no such file".

Definition env_no_proxy_answers : Env :=
  {| ToUpper := strings_ToUpper beyond_ascii;
     ParseLevel := fun _ => None;
     url_Parse := fun _ => None;
     fs := fs_one;
     validated := fun _ => [] |}.

Definition flags_proxied : Flags :=
  {| printVersion := false;
     targetURL := "http://localhost:8080";
     method := "get";
     delayBetweenRequests := 0;
     maxGoroutines := 10;
     requestTimeout := 10 * GoInt.Second;
     logLevel := "info";
     userAgent := "Mozilla/5.0";
     userAgentsListFile := "";
     executionTime := 10 * GoInt.Second;
     prettyLog := false;
     proxyList := "proxies.txt";
     startingTimeoutSeconds := 3 |}.

(** The same flags with a method that is not allowed. *)
Definition flags_bad_method : Flags :=
  {| printVersion := false;
     targetURL := "http://localhost:8080";
     method := "fetch";
     delayBetweenRequests := 0;
     maxGoroutines := 10;
     requestTimeout := 10 * GoInt.Second;
     logLevel := "info";
     userAgent := "Mozilla/5.0";
     userAgentsListFile := "";
     executionTime := 10 * GoInt.Second;
     prettyLog := false;
     proxyList := "";
     startingTimeoutSeconds := 3 |}.

(** The actions by which one request is admitted, performed with result
    [r], delivered, received and aggregated, nothing else happening in
    between. *)
Definition consume_block (r : Result) : list action :=
  [DispDefault; DispAdmit; Send 0 (Finished r); Send 0 (Select OnChannel);
   Send 0 (Select OnChannel); DispRecv; Agg 0; Agg 0; Agg 0; Agg 0].

Definition refused : Result :=
  {| status := 200; err := Some "dial tcp: connection refused"%string;
     duration := 1000 |}.

(** A failed request is delivered, the run is interrupted and [main] gets
    past [wg.Wait()] before the dispatcher takes the result off the channel;
    the aggregation task has counted the error when [main] reads the
    counters. *)
Definition late_aggregation : list action :=
  [DispDefault; DispAdmit; Send 0 (Finished refused);
   Send 0 (Select OnChannel); Interrupt; MainCtxDone; MainWgWait; DispRecv;
   Agg 0; MainReport 1000000000].

(** Two requests, one served and one refused, are admitted, performed,
    delivered, received and aggregated; then the run is interrupted, the
    dispatcher returns and [main] gets past [wg.Wait()]. *)
Definition two_requests_joined : list action :=
  [DispDefault; DispAdmit; Send 0 (Finished {| status := 200; err := None;
                                               duration := 7 |});
   Send 0 (Select OnChannel); Send 0 (Select OnChannel); DispRecv;
   Agg 0; Agg 0; Agg 0; Agg 0;
   DispDefault; DispAdmit; Send 0 (Finished refused);
   Send 0 (Select OnChannel); Send 0 (Select OnChannel); DispRecv;
   Agg 0; Agg 0; Agg 0; Agg 0;
   Interrupt; DispDone; MainCtxDone; MainWgWait].

Definition ages : Result :=
  {| status := 200; err := None; duration := 2 ^ 62 |}.

Definition served : Result :=
  {| status := 200; err := None; duration := 7 |}.

Definition refused_attempt : Attempt :=
  {| filled := fun resp => resp;
     doErr := Some "dial tcp: connection refused"%string;
     elapsed := 1000 |}.

(** A network on which the local proxies answer, and the environment of a
    run on it. *)
Definition net_local (p : string) : bool := String.prefix "127." p.

Definition env_local : Env :=
  {| ToUpper := strings_ToUpper beyond_ascii;
     ParseLevel := fun _ => None;
     url_Parse := fun _ => None;
     fs := fs_one;
     validated := filter net_local |}.

End Examples.

(** * Invariants *)

Module Invariants.

Import GoInt Proxy Main.

(** What holds of every state of a validation of [ps] along schedule
    [sched]. *)
Record vinv (ps : list string) (sched : list (nat * option string))
       (s : vstate) : Prop := mkVinv {
  vinv_perm : Permutation (pending s ++ map fst (probes s)) ps;
  vinv_verdicts : map snd (probes s) = map (fun x => testProxy (snd x)) sched;
  vinv_valid : validProxies s = map fst (filter snd (probes s));
  vinv_invalid : invalidProxies s = map fst (filter failed (probes s))
}.


(** Every live sender is backed by a value in [sem], and neither channel
    holds more than its capacity. *)
Record slots_inv (cap : nat) (s : state) : Prop := mkSlots {
  si_senders : (List.length (senders s) <= sem s)%nat;
  si_sem : (sem s <= cap)%nat;
  si_resp : (List.length (respChan s) <= cap)%nat
}.

Definition sumZ {A} (f : A -> Z) (l : list A) : Z :=
  fold_right (fun x acc => f x + acc) 0 l.

Definition has_err (r : Result) : bool := negb (is_nil (err r)).

Definition err_weight (r : Result) : Z := if has_err r then 1 else 0.

(** The number of results with a non-nil error, and the sum of the
    durations, of a list of results. *)
Definition errs_of (l : list Result) : Z := sumZ err_weight l.
Definition durs_of (l : list Result) : Z := sumZ duration l.

(** What an aggregation task has still to add to each counter. *)
Definition pend_err (t : agg_pc * Result) : Z :=
  match fst t with
  | AErr => err_weight (snd t)
  | _ => 0
  end.

Definition pend_sent (t : agg_pc * Result) : Z :=
  match fst t with
  | AErr | ASent => 1
  | _ => 0
  end.

Definition pend_dur (t : agg_pc * Result) : Z :=
  match fst t with
  | ADone => 0
  | _ => duration (snd t)
  end.

(** A task that has counted its error and not yet its request. *)
Definition between (t : agg_pc * Result) : Z :=
  match fst t with
  | ASent => err_weight (snd t)
  | _ => 0
  end.

(** The counters before wrap-around, from the results received and what
    the tasks in flight have not added yet. *)
Definition errs_done (s : state) : Z :=
  errs_of (received s) - sumZ pend_err (aggs s).
Definition sent_done (s : state) : Z :=
  Slice.len (received s) - sumZ pend_sent (aggs s).
Definition durs_done (s : state) : Z :=
  durs_of (received s) - sumZ pend_dur (aggs s).

Record agg_inv (s : state) : Prop := mkAgg {
  ai_err : errCount s = int64 (errs_done s);
  ai_sent : sentRequestCount s = int64 (sent_done s);
  ai_dur : totalDuration s = int64 (durs_done s);
  ai_err_nonneg : 0 <= errs_done s;
  ai_err_le : errs_done s <= sent_done s + sumZ between (aggs s);
  ai_sent_nonneg : 0 <= sent_done s;
  ai_wg : wg s = Slice.len (aggs s)
}.

(** [main] gets past [<-ctx.Done()] only once the context is cancelled, and
    what it reports is [finalReport] of counter values. *)
Definition main_inv (s : state) : Prop :=
  match mainG s with
  | MWaitCtx => True
  | MReported rep =>
      ctxDone s = true /\
      exists sent errs total sinceStart,
        rep = finalReport sent errs total sinceStart
  | _ => ctxDone s = true
  end.

(** A string that does not start, or does not end, with a white space
    rune. *)
Definition starts_clean (s : string) : Prop := Util.leading_space s = false.

Definition ends_clean (s : string) : Prop := Util.trailing_space s = false.

(** An entry as [ReadFileEntries] leaves it. *)
Definition entry_form (e : string) : Prop :=
  e <> ""%string /\ starts_clean e /\ ends_clean e.

(** A sender that has not yet passed the [select] that delivers its
    [Result]. *)
Definition undelivered (pc : sender_pc) : Z :=
  match pc with
  | SRelease => 0
  | _ => 1
  end.

(** The results of a run that are still on their way to the counters or
    already counted by the dispatcher. *)
Definition results_tracked (s : state) : Z :=
  Slice.len (received s) + Slice.len (respChan s)
  + sumZ undelivered (senders s).

(** Before cancellation every value in [sem] belongs to a live sender; a
    dispatcher that waits for a slot leaves room in [respChan] for every
    result still to be delivered; the dispatcher returns only after
    cancellation. *)
Record flow_inv (cap : nat) (s : state) : Prop := mkFlow {
  fi_noleak : ctxDone s = false -> sem s = List.length (senders s);
  fi_room : disp s = DAdmit ->
            Slice.len (respChan s) + sumZ undelivered (senders s)
            <= Z.of_nat cap;
  fi_returned : disp s = DReturned -> ctxDone s = true
}.

(** The atomic actions an aggregation task has still to take. *)
Definition steps_left (t : agg_pc * Result) : Z :=
  match fst t with
  | AErr => 4
  | ASent => 3
  | ADuration => 2
  | ADone => 1
  end.

(** What a shutdown leaves when it is complete: no sender, no aggregation
    task, the dispatcher returned and the report made. *)
Definition shut_down (s : state) : Prop :=
  senders s = [] /\ aggs s = [] /\ disp s = DReturned /\
  exists rep, mainG s = MReported rep.

(** A list of actions of the program's goroutines alone. *)
Definition program_only (acts : list action) : Prop :=
  forallb (fun a => negb (environment a)) acts = true.

End Invariants.

(** * Proofs *)

(** ** Integer wrap-around *)

Module GoIntFacts.

Import GoInt.

Lemma int64_id z : in_int64 z -> int64 z = z.
Proof.
  unfold in_int64, min_int64, max_int64, int64, wrap_signed.
  intros H. rewrite Z.mod_small; lia.
Qed.

Lemma int64_add_l a b : int64 (int64 a + b) = int64 (a + b).
Proof.
  unfold int64, wrap_signed.
  replace ((a + 2 ^ (64 - 1)) mod 2 ^ 64 - 2 ^ (64 - 1) + b + 2 ^ (64 - 1))
    with ((a + 2 ^ (64 - 1)) mod 2 ^ 64 + b) by lia.
  replace (a + b + 2 ^ (64 - 1)) with (a + 2 ^ (64 - 1) + b) by lia.
  f_equal. rewrite Zplus_mod_idemp_l. reflexivity.
Qed.

Lemma int64_add_r a b : int64 (a + int64 b) = int64 (a + b).
Proof. rewrite Z.add_comm, int64_add_l. f_equal. lia. Qed.

Lemma AddInt64_int64 a b : AddInt64 (int64 a) b = int64 (a + b).
Proof. unfold AddInt64. apply int64_add_l. Qed.

Lemma int_id z : - 2 ^ 63 <= z < 2 ^ 63 -> int z = z.
Proof.
  unfold int, int_size, wrap_signed. intros H.
  rewrite Z.mod_small; lia.
Qed.

Lemma uint32_small z : 0 <= z < 2 ^ 32 -> uint32 z = z.
Proof. intros H. unfold uint32, wrap_unsigned. apply Z.mod_small. exact H. Qed.

End GoIntFacts.

(** ** Slices and the list helpers *)

Module SliceFacts.

Import Slice.

Lemma index_in_range {A} (l : list A) i :
  0 <= i < len l ->
  exists a, index l i = Some a /\ nth_error l (Z.to_nat i) = Some a.
Proof.
  intros H. unfold index.
  replace ((0 <=? i) && (i <? len l)) with true
    by (symmetry; apply andb_true_iff; split;
        [apply Z.leb_le | apply Z.ltb_lt]; lia).
  destruct (nth_error l (Z.to_nat i)) as [a|] eqn:E.
  - exists a. split; reflexivity.
  - apply nth_error_None in E. unfold len in H. lia.
Qed.

Lemma index_Some_In {A} (l : list A) i a : index l i = Some a -> In a l.
Proof.
  unfold index. destruct ((0 <=? i) && (i <? len l)); [|discriminate].
  apply nth_error_In.
Qed.

Lemma len_zero_nil {A} (l : list A) : (len l =? 0) = true <-> l = [].
Proof.
  unfold len. rewrite Z.eqb_eq. destruct l; simpl; split; intros H;
    try reflexivity; try discriminate; lia.
Qed.

Lemma len_pos {A} (l : list A) : l <> [] -> 0 < len l.
Proof. unfold len. destruct l; [congruence | simpl; lia]. Qed.

Lemma length_set_at {A} i (y : A) l :
  List.length (Slice.set_at i y l) = List.length l.
Proof.
  revert i. induction l as [|x t IH]; intros [|j]; simpl; try reflexivity.
  now rewrite IH.
Qed.

Lemma length_remove_at {A} i (l : list A) x :
  nth_error l i = Some x ->
  S (List.length (Slice.remove_at i l)) = List.length l.
Proof.
  revert i. induction l as [|y t IH]; intros [|j]; simpl; try discriminate.
  - reflexivity.
  - intros H. now rewrite (IH _ H).
Qed.

Lemma remove_at_perm {A} i (l : list A) x :
  nth_error l i = Some x -> Permutation (x :: Slice.remove_at i l) l.
Proof.
  revert i. induction l as [|y t IH]; intros [|j]; simpl; try discriminate.
  - intros H. injection H as ->. apply Permutation_refl.
  - intros H. eapply perm_trans; [apply perm_swap|].
    apply perm_skip. now apply IH.
Qed.

Lemma nth_error_set_at {A} i (y : A) l x :
  nth_error l i = Some x -> nth_error (Slice.set_at i y l) i = Some y.
Proof.
  revert i. induction l as [|z t IH]; intros [|j]; simpl; try discriminate.
  - reflexivity.
  - apply IH.
Qed.

End SliceFacts.

(** ** The rotator *)

Module RotatorFacts.

Import GoInt GoIntFacts Slice SliceFacts Proxy.

Lemma Next_empty p : proxies p = [] -> Next p = (Returned "", p).
Proof. intros H. unfold Next. rewrite H. reflexivity. Qed.

(** Below the wrap of the counter a call returns the entry at the old
    counter value modulo the length. *)
Lemma Next_below_wrap p :
  proxies p <> [] -> 0 <= current p < 2 ^ 32 - 1 ->
  exists s,
    nth_error (proxies p) (Z.to_nat (current p mod len (proxies p))) = Some s /\
    Next p = (Returned s, {| proxies := proxies p; current := current p + 1 |}).
Proof.
  intros Hne Hc. unfold Next.
  destruct (len (proxies p) =? 0) eqn:E.
  { apply len_zero_nil in E. contradiction. }
  pose proof (len_pos _ Hne) as Hlen.
  unfold AddUint32. rewrite uint32_small by lia.
  rewrite (int_id (current p + 1)) by lia.
  replace (current p + 1 - 1) with (current p) by lia.
  rewrite int_id by lia.
  unfold rem. rewrite Z.rem_mod_nonneg by lia.
  destruct (index_in_range (proxies p) (current p mod len (proxies p)))
    as [s [Hi Hn]].
  { apply Z.mod_pos_bound. lia. }
  exists s. rewrite Hi. split; [exact Hn | reflexivity].
Qed.

Lemma after_succ k p : after (N.succ k) p = snd (Next (after k p)).
Proof. unfold after. apply N.iter_succ. Qed.

(** The counter of a fresh rotator counts the calls, as long as it has not
    wrapped. *)
Lemma after_fresh ps k :
  ps <> [] -> Z.of_N k < 2 ^ 32 ->
  after k (NewProxyRotator ps) = {| proxies := ps; current := Z.of_N k |}.
Proof.
  intros Hne. induction k as [|k IH] using N.peano_ind; intros Hk.
  - reflexivity.
  - rewrite after_succ, IH by lia.
    destruct (Next_below_wrap {| proxies := ps; current := Z.of_N k |})
      as [s [_ HN]]; simpl; try assumption; try lia.
    rewrite HN. simpl. f_equal. lia.
Qed.

Lemma after_empty k p : proxies p = [] -> after k p = p.
Proof.
  intros H. induction k as [|k IH] using N.peano_ind.
  - reflexivity.
  - rewrite after_succ, IH, Next_empty by assumption. reflexivity.
Qed.

Lemma Next_proxies p : proxies (snd (Next p)) = proxies p.
Proof.
  unfold Next. destruct (len (proxies p) =? 0); [reflexivity|].
  destruct (index _ _); reflexivity.
Qed.

Lemma after_proxies k p : proxies (after k p) = proxies p.
Proof.
  induction k as [|k IH] using N.peano_ind.
  - reflexivity.
  - rewrite after_succ, Next_proxies. exact IH.
Qed.

Lemma Next_Returned_In p s :
  fst (Next p) = Returned s -> proxies p <> [] -> In s (proxies p).
Proof.
  unfold Next. destruct (len (proxies p) =? 0) eqn:E.
  - apply len_zero_nil in E. congruence.
  - destruct (index _ _) eqn:Ei; simpl; [|discriminate].
    intros H _. injection H as <-. eapply index_Some_In; eauto.
Qed.

(** C1 (as amended). Round-robin rotation below the wrap of the counter:
    on a fresh rotator over [N >= 1] proxies the [i]-th call, for
    [1 <= i < 2^32], leaves the 32-bit counter at [i] and returns
    [list[(i-1) mod N]]; over the empty list every call returns the empty
    string and leaves the rotator as it was. *)
Theorem Next_round_robin :
  (forall i, nth_call [] i = Returned "" /\
             after (Z.to_N i) (NewProxyRotator []) = NewProxyRotator []) /\
  (forall ps i, ps <> [] -> 1 <= i < 2 ^ 32 ->
     current (after (Z.to_N i) (NewProxyRotator ps)) = i /\
     exists s, nth_error ps (Z.to_nat ((i - 1) mod len ps)) = Some s /\
               nth_call ps i = Returned s).
Proof.
  split.
  - intros i. unfold nth_call.
    rewrite !after_empty by reflexivity. split; reflexivity.
  - intros ps i Hne Hi. split.
    + rewrite after_fresh by (try assumption; lia). simpl. lia.
    + unfold nth_call. rewrite after_fresh by (try assumption; lia).
      destruct (Next_below_wrap
                  {| proxies := ps; current := Z.of_N (Z.to_N (i - 1)) |})
        as [s [Hn HN]]; simpl; try assumption; try lia.
      exists s. rewrite HN. simpl in Hn.
      rewrite Z2N.id in Hn by lia. split; [exact Hn | reflexivity].
Qed.

Lemma Next_round_robin_witness :
  ["a"; "b"; "c"]%string <> [] /\ 1 <= 5 < 2 ^ 32 /\
  nth_call ["a"; "b"; "c"]%string 5 = Returned "b".
Proof.
  split; [discriminate|]. split; [lia|].
  destruct (proj2 Next_round_robin ["a"; "b"; "c"]%string 5)
    as [_ [s [Hn Hc]]]; [discriminate | lia |].
  rewrite Hc. f_equal.
  change (Z.to_nat ((5 - 1) mod len ["a"; "b"; "c"]%string)) with 1%nat in Hn.
  simpl in Hn. injection Hn as <-. reflexivity.
Defined.

(** The rotator over two proxies after [2^32 - 1] calls. *)
Lemma before_wrap :
  after (Z.to_N (2 ^ 32 - 1)) (NewProxyRotator ["a"; "b"]%string)
  = {| proxies := ["a"; "b"]%string; current := 2 ^ 32 - 1 |}.
Proof.
  rewrite after_fresh; [reflexivity | discriminate |].
  rewrite Z2N.id; lia.
Qed.

(** C1, counterexample. The [2^32]-th call on a rotator over two proxies
    does not return [list[(2^32 - 1) mod 2]], which is ["b"]: the counter
    wraps to [0] and the slice access is at index [-1]. *)
Lemma Next_round_robin_breaks_at_wrap :
  nth_error ["a"; "b"]%string (Z.to_nat ((2 ^ 32 - 1) mod 2)) = Some "b"%string /\
  nth_call ["a"; "b"]%string (2 ^ 32) = IndexOutOfRange (-1) /\
  nth_call ["a"; "b"]%string (2 ^ 32) <> Returned "b".
Proof.
  assert (H : nth_call ["a"; "b"]%string (2 ^ 32) = IndexOutOfRange (-1)).
  { unfold nth_call. rewrite before_wrap. reflexivity. }
  split; [reflexivity|]. split; [exact H|]. rewrite H. discriminate.
Qed.

(** C10. The call that wraps the counter: after [2^32 - 1] calls on a
    rotator over two proxies the counter stands at [2^32 - 1]; the next
    call stores [0], computes the index [(0 - 1) % 2 = -1] and the slice
    access panics instead of returning an element of the list. *)
Theorem Next_index_out_of_range_at_wrap :
  after (Z.to_N (2 ^ 32 - 1)) (NewProxyRotator ["a"; "b"]%string)
  = {| proxies := ["a"; "b"]%string; current := 2 ^ 32 - 1 |} /\
  Next {| proxies := ["a"; "b"]%string; current := 2 ^ 32 - 1 |}
  = (IndexOutOfRange (-1), {| proxies := ["a"; "b"]%string; current := 0 |}) /\
  rem (int (int (AddUint32 (2 ^ 32 - 1) 1) - 1)) (len ["a"; "b"]%string) = -1.
Proof.
  split; [exact before_wrap|]. split; reflexivity.
Qed.

End RotatorFacts.

(** ** [ValidateProxies] *)

Module ValidatorFacts.

Import Slice SliceFacts Proxy Invariants.

Lemma vinv_init ps : vinv ps [] (vinit ps).
Proof.
  constructor; simpl; try reflexivity.
  rewrite app_nil_r. apply Permutation_refl.
Qed.

Lemma vstep_inv ps sched cap i e s s' :
  vinv ps sched s -> vstep cap i e s = Some s' ->
  vinv ps (sched ++ [(i, e)]) s'.
Proof.
  intros [Hp Hv Hva Hin] Hs. unfold vstep in Hs.
  destruct (nth_error (pending s) i) as [proxy|] eqn:En; [|discriminate].
  assert (Hperm : forall b,
    Permutation (remove_at i (pending s) ++ map fst (probes s ++ [(proxy, b)])) ps).
  { intros b. rewrite map_app. simpl. rewrite app_assoc.
    eapply perm_trans; [apply Permutation_sym, Permutation_cons_append|].
    eapply perm_trans; [|exact Hp].
    apply (Permutation_app_tail (map fst (probes s))
             (remove_at_perm i (pending s) proxy En)). }
  destruct (testProxy e) eqn:Et.
  - destruct (List.length (validProxies s) <? cap)%nat; [|discriminate].
    injection Hs as <-. constructor; simpl.
    + apply Hperm.
    + rewrite !map_app, Hv. simpl. now rewrite Et.
    + rewrite filter_app, map_app, Hva. reflexivity.
    + rewrite filter_app, map_app, Hin. simpl. now rewrite app_nil_r.
  - destruct (List.length (invalidProxies s) <? cap)%nat; [|discriminate].
    injection Hs as <-. constructor; simpl.
    + apply Hperm.
    + rewrite !map_app, Hv. simpl. now rewrite Et.
    + rewrite filter_app, map_app, Hva. simpl. now rewrite app_nil_r.
    + rewrite filter_app, map_app, Hin. reflexivity.
Qed.

Lemma vrun_inv ps cap sched : forall sched0 s0 s,
  vinv ps sched0 s0 -> vrun cap sched s0 = Some s ->
  vinv ps (sched0 ++ sched) s.
Proof.
  induction sched as [|[i e] rest IH]; intros sched0 s0 s Hinv Hrun; simpl in Hrun.
  - injection Hrun as <-. now rewrite app_nil_r.
  - destruct (vstep cap i e s0) as [s1|] eqn:Es; [|discriminate].
    replace (sched0 ++ (i, e) :: rest) with ((sched0 ++ [(i, e)]) ++ rest)
      by (rewrite <- app_assoc; reflexivity).
    eapply IH; [|exact Hrun]. eapply vstep_inv; eauto.
Qed.

Lemma partition_length (l : list (string * bool)) :
  (List.length (filter snd l) + List.length (filter failed l))%nat = List.length l.
Proof.
  induction l as [|[a b] t IH]; [reflexivity|].
  unfold failed in *. simpl. destruct b; simpl; lia.
Qed.

Lemma partition_perm (l : list (string * bool)) :
  Permutation (map fst (filter snd l) ++ map fst (filter failed l)) (map fst l).
Proof.
  induction l as [|[a b] t IH]; [apply Permutation_refl|].
  unfold failed in *. simpl. destruct b; simpl.
  - now apply perm_skip.
  - eapply perm_trans; [apply Permutation_sym, Permutation_middle|].
    now apply perm_skip.
Qed.

Lemma vinv_lengths ps sched s :
  vinv ps sched s ->
  (List.length (pending s) + List.length sched = List.length ps)%nat /\
  (List.length (validProxies s) + List.length (invalidProxies s)
   = List.length sched)%nat.
Proof.
  intros [Hp Hv Hva Hin].
  apply Permutation_length in Hp. rewrite length_app, length_map in Hp.
  apply (f_equal (@List.length bool)) in Hv. rewrite !length_map in Hv.
  split; [lia|].
  rewrite Hva, Hin, !length_map, partition_length. exact Hv.
Qed.

(** No goroutine ever blocks on its send: the buffers are as large as the
    input. *)
Lemma vstep_progress ps sched s i e :
  vinv ps sched s -> (i < List.length (pending s))%nat ->
  exists s', vstep (List.length ps) i e s = Some s'.
Proof.
  intros Hinv Hi. destruct (vinv_lengths _ _ _ Hinv) as [H1 H2].
  unfold vstep.
  destruct (nth_error (pending s) i) as [proxy|] eqn:En.
  2:{ apply nth_error_None in En. lia. }
  destruct (testProxy e).
  - replace (List.length (validProxies s) <? List.length ps)%nat with true
      by (symmetry; apply Nat.ltb_lt; lia).
    eexists; reflexivity.
  - replace (List.length (invalidProxies s) <? List.length ps)%nat with true
      by (symmetry; apply Nat.ltb_lt; lia).
    eexists; reflexivity.
Qed.

Lemma vrun_in_order net_ok cap : forall ps v iv lg,
  (List.length v + List.length ps <= cap)%nat ->
  (List.length iv + List.length ps <= cap)%nat ->
  exists lg',
    vrun cap (in_order net_ok ps) (mkV ps v iv lg)
    = Some (mkV [] (v ++ filter net_ok ps)
                (iv ++ filter (fun p => negb (net_ok p)) ps) lg').
Proof.
  induction ps as [|p t IH]; intros v iv lg Hv Hiv; simpl.
  - exists lg. now rewrite !app_nil_r.
  - simpl in Hv, Hiv. unfold vstep. simpl.
    destruct (net_ok p) eqn:En; simpl.
    + replace (List.length v <? cap)%nat with true
        by (symmetry; apply Nat.ltb_lt; lia).
      destruct (IH (v ++ [p]) iv (lg ++ [(p, true)])) as [lg' H].
      { rewrite length_app. simpl. lia. }
      { lia. }
      exists lg'. rewrite H, <- app_assoc. reflexivity.
    + replace (List.length iv <? cap)%nat with true
        by (symmetry; apply Nat.ltb_lt; lia).
      destruct (IH v (iv ++ [p]) (lg ++ [(p, false)])) as [lg' H].
      { lia. }
      { rewrite length_app. simpl. lia. }
      exists lg'. rewrite H, <- app_assoc. reflexivity.
Qed.

Lemma ValidateProxies_inv ps sched valid invalid :
  ValidateProxies ps sched = Some (valid, invalid) ->
  exists s, vrun (List.length ps) sched (vinit ps) = Some s /\
            pending s = [] /\ validProxies s = valid /\
            invalidProxies s = invalid /\ vinv ps sched s.
Proof.
  unfold ValidateProxies.
  destruct (vrun (List.length ps) sched (vinit ps)) as [s|] eqn:Er; [|discriminate].
  destruct (pending s) eqn:Ep; [|discriminate].
  intros H. injection H as <- <-. exists s.
  pose proof (vrun_inv ps _ sched [] (vinit ps) s (vinv_init ps) Er) as Hinv.
  repeat split; try assumption; apply Hinv.
Qed.

Lemma ValidateProxies_perm ps sched valid invalid :
  ValidateProxies ps sched = Some (valid, invalid) ->
  Permutation (valid ++ invalid) ps.
Proof.
  intros H. destruct (ValidateProxies_inv _ _ _ _ H)
    as [s [_ [Hp [<- [<- [Hperm _ Hva Hin]]]]]].
  rewrite Hp in Hperm. simpl in Hperm.
  rewrite Hva, Hin. eapply perm_trans; [apply partition_perm | exact Hperm].
Qed.

(** C3. [ValidateProxies] partitions its input.  Whenever it returns
    [(valid, invalid)], every goroutine has made its one probe (the schedule
    is as long as the input and the probed addresses are the input up to
    order), [valid] holds exactly the addresses of the probes whose connect
    succeeded and [invalid] those of the others, in the order the probes
    resolved; together they are a permutation of the input, so their union
    is the input set and their lengths add up to its length.  No goroutine
    can block on its send, and when the probes resolve in input order the
    two results are the two filters of the input. *)
Theorem ValidateProxies_partition :
  (forall ps sched valid invalid,
     ValidateProxies ps sched = Some (valid, invalid) ->
     let log := probe_log ps sched in
     List.length sched = List.length ps /\
     map snd log = map (fun x => testProxy (snd x)) sched /\
     Permutation (map fst log) ps /\
     valid = map fst (filter snd log) /\
     invalid = map fst (filter failed log) /\
     Permutation (valid ++ invalid) ps /\
     (forall a, In a valid \/ In a invalid <-> In a ps) /\
     (List.length valid + List.length invalid = List.length ps)%nat) /\
  (forall ps sched s i e,
     vrun (List.length ps) sched (vinit ps) = Some s ->
     (i < List.length (pending s))%nat ->
     exists s', vstep (List.length ps) i e s = Some s') /\
  (forall ps net_ok,
     ValidateProxies ps (in_order net_ok ps)
     = Some (filter net_ok ps, filter (fun p => negb (net_ok p)) ps)).
Proof.
  split; [|split].
  - intros ps sched valid invalid H log.
    pose proof (ValidateProxies_perm _ _ _ _ H) as Hperm.
    destruct (ValidateProxies_inv _ _ _ _ H)
      as [s [Hrun [Hp [Hv [Hi Hinv]]]]].
    assert (Hlog : log = probes s).
    { unfold log, probe_log. now rewrite Hrun. }
    destruct (vinv_lengths _ _ _ Hinv) as [H1 H2].
    destruct Hinv as [Hpm Hvd Hva Hin].
    rewrite Hp in *. simpl in *. rewrite Hlog.
    repeat split; try congruence.
    + pose proof (Permutation_in a Hperm) as Hx. intros Hor.
      apply Hx. apply in_or_app. exact Hor.
    + intros Ha. apply in_app_or.
      apply (Permutation_in a (Permutation_sym Hperm)). exact Ha.
  - intros ps sched s i e Hrun Hi.
    eapply vstep_progress; [|exact Hi].
    apply (vrun_inv ps _ sched [] (vinit ps) s (vinv_init ps) Hrun).
  - intros ps net_ok. unfold ValidateProxies, vinit.
    destruct (vrun_in_order net_ok (List.length ps) ps [] [] [])
      as [lg' H]; simpl; try lia.
    rewrite H. reflexivity.
Qed.

Lemma ValidateProxies_partition_witness :
  ValidateProxies
    ["127.0.0.1:4145"; "10.0.0.1:9"; "127.0.0.1:1080"; "10.0.0.2:9"]%string
    [(2%nat, None); (0%nat, None); (1%nat, Some "refused"%string);
     (0%nat, Some "timeout"%string)]
  = Some (["127.0.0.1:1080"; "127.0.0.1:4145"]%string,
          ["10.0.0.2:9"; "10.0.0.1:9"]%string) /\
  (List.length ["127.0.0.1:1080"; "127.0.0.1:4145"]%string
   + List.length ["10.0.0.2:9"; "10.0.0.1:9"]%string = 4)%nat.
Proof.
  assert (H : ValidateProxies
    ["127.0.0.1:4145"; "10.0.0.1:9"; "127.0.0.1:1080"; "10.0.0.2:9"]%string
    [(2%nat, None); (0%nat, None); (1%nat, Some "refused"%string);
     (0%nat, Some "timeout"%string)]
  = Some (["127.0.0.1:1080"; "127.0.0.1:4145"]%string,
          ["10.0.0.2:9"; "10.0.0.1:9"]%string)) by reflexivity.
  split; [exact H|].
  exact (proj2 (proj2 (proj2 (proj2 (proj2 (proj2 (proj2
    (proj1 ValidateProxies_partition _ _ _ _ H)))))))).
Defined.

End ValidatorFacts.

(** ** Start-up and the proxied client *)

Module StartupFacts.

Import Slice SliceFacts Proxy RotatorFacts ValidatorFacts Main.

Lemma ReadFileEntries_nonempty fs path entries :
  Util.ReadFileEntries fs path = inl entries ->
  forall e, In e entries -> e <> ""%string.
Proof.
  unfold Util.ReadFileEntries. destruct (fs path) as [e|lines [e|]];
    try discriminate.
  intros H. injection H as <-. intros e Hin ->.
  apply filter_In in Hin. destruct Hin as [_ Hin]. discriminate.
Qed.

Lemma legal_validation_In validated ps a :
  legal_validation validated -> In a (validated ps) -> In a ps.
Proof.
  intros Hl Hin. destruct (Hl ps) as [sched [invalid H]].
  apply ValidateProxies_perm in H.
  apply (Permutation_in a H). apply in_or_app. now left.
Qed.

Ltac startup_cases H :=
  unfold main_startup in H;
  repeat match type of H with
         | context [match ?x with _ => _ end] => destruct x eqn:?
         end;
  try discriminate H.

(** C8. Fatal configuration errors.  Whatever the environment, flags with
    an empty target URL, a target URL that [url.Parse] rejects, a method
    whose upper-cased form is outside the allowed set, fewer than one
    goroutine or a negative delay never take [main] to the dispatch loop,
    where alone requests are issued; unless only the version was asked
    for, [main] ends in [log.Fatal()]. *)
Theorem invalid_configuration_is_fatal env f :
  targetURL f = ""%string \/
  url_Parse env (targetURL f) <> None \/
  Contains allowedHTTPMethods (ToUpper env (method f)) = false \/
  maxGoroutines f < 1 \/
  delayBetweenRequests f < 0 ->
  (forall rt, main_startup env f <> Dispatching rt) /\
  (printVersion f = false -> exists msg, main_startup env f = Fatal msg).
Proof.
  intros Hbad.
  assert (Hnd : forall rt, main_startup env f <> Dispatching rt).
  { intros rt H. startup_cases H.
    all: repeat match goal with
           | E : String.eqb _ _ = false |- _ => apply String.eqb_neq in E
           | E : (_ <? _) = false |- _ => apply Z.ltb_ge in E
           | E : negb _ = false |- _ => apply negb_false_iff in E
           end.
    all: destruct Hbad as [Hb|[Hb|[Hb|[Hb|Hb]]]];
      try contradiction; try congruence; try lia. }
  split; [exact Hnd|].
  intros Hv. destruct (main_startup env f) as [|msg|rt] eqn:E.
  - unfold main_startup in E. rewrite Hv in E. startup_cases E.
  - now exists msg.
  - exfalso. now apply (Hnd rt).
Qed.

Lemma invalid_configuration_is_fatal_witness :
  Contains allowedHTTPMethods
    (ToUpper Examples.env_no_proxy_answers (method Examples.flags_bad_method))
  = false /\
  main_startup Examples.env_no_proxy_answers Examples.flags_bad_method
  = Fatal "invalid HTTP method".
Proof.
  split; [reflexivity|].
  destruct (proj2 (invalid_configuration_is_fatal
                     Examples.env_no_proxy_answers Examples.flags_bad_method
                     (or_intror (or_intror (or_introl eq_refl)))) eq_refl)
    as [msg Hmsg].
  reflexivity.
Defined.

(** The dial hook of the proxied client fails on the empty string. *)
Lemma rotatorDial_empty p addr :
  fst (Next p) = Returned "" ->
  dial GetClient addr p = (DialError "proxy address is empty", snd (Next p)).
Proof.
  unfold dial, GetClient, rotatorDial. simpl.
  destruct (Next p) as [o p']. simpl. intros ->. reflexivity.
Qed.

Lemma rotatorDial_never_direct p addr a :
  fst (dial GetClient addr p) <> Direct a.
Proof.
  unfold dial, GetClient, rotatorDial. simpl.
  destruct (Next p) as [[s|i] p']; simpl; [|discriminate].
  destruct (String.eqb s ""); discriminate.
Qed.

Lemma Next_empty_iff p :
  (forall s, In s (proxies p) -> s <> ""%string) ->
  fst (Next p) = Returned "" <-> proxies p = [].
Proof.
  intros Hne. split.
  - intros H. destruct (proxies p) as [|x t] eqn:E; [reflexivity|].
    exfalso. apply (Hne ""%string); [|reflexivity].
    rewrite <- E. apply Next_Returned_In; [exact H|]. rewrite E. discriminate.
  - intros H. now rewrite Next_empty.
Qed.

(** C7 (as amended). The empty rotator.  [Next] returns the empty string
    when the list is empty and, for a list none of whose entries is itself
    the empty string, only then; such are the lists [main] builds, whose
    entries come from [ReadFileEntries].  A dial of the proxied client that
    gets the empty string from [Next] returns the error "proxy address is
    empty", and no dial of that client is ever a direct connection, which
    only the client without a dial hook makes.  When no proxy of the list
    is valid, flags that are otherwise in order still take [main] to the
    dispatch loop, with the proxied client over an empty rotator, every
    dial of which fails with that error. *)
Theorem empty_rotator_fails_dial :
  (forall p, proxies p = [] -> Next p = (Returned "", p)) /\
  (forall p, (forall s, In s (proxies p) -> s <> ""%string) ->
     (fst (Next p) = Returned "" <-> proxies p = [])) /\
  (forall p addr, fst (Next p) = Returned "" ->
     dial GetClient addr p
     = (DialError "proxy address is empty", snd (Next p))) /\
  (forall p addr a, fst (dial GetClient addr p) <> Direct a) /\
  (forall p addr, dial directClient addr p = (Direct addr, p)) /\
  (forall env f rt,
     legal_validation (validated env) ->
     main_startup env f = Dispatching rt -> proxyList f <> ""%string ->
     rt_client rt = GetClient /\
     forall k, fst (Next (after k (rt_rotator rt))) = Returned ""
               <-> proxies (rt_rotator rt) = []) /\
  (forall env f ps,
     printVersion f = false ->
     ParseLevel env (logLevel f) = None ->
     userAgentsListFile f = ""%string ->
     url_Parse env (targetURL f) = None ->
     targetURL f <> ""%string ->
     0 <= delayBetweenRequests f ->
     1 <= maxGoroutines f ->
     Contains allowedHTTPMethods (ToUpper env (method f)) = true ->
     proxyList f <> ""%string ->
     Util.ReadFileEntries (fs env) (proxyList f) = inl ps ->
     validated env ps = [] ->
     exists rt,
       main_startup env f = Dispatching rt /\
       rt_client rt = GetClient /\
       rt_rotator rt = NewProxyRotator [] /\
       forall addr k,
         dial (rt_client rt) addr (after k (rt_rotator rt))
         = (DialError "proxy address is empty", rt_rotator rt)).
Proof.
  split; [exact Next_empty|].
  split; [exact Next_empty_iff|].
  split; [exact rotatorDial_empty|].
  split; [exact rotatorDial_never_direct|].
  split; [reflexivity|].
  split.
  - intros env f rt Hl H Hp. apply String.eqb_neq in Hp.
    unfold main_startup in H. rewrite Hp in H.
    destruct (Util.ReadFileEntries (fs env) (proxyList f)) as [ps|e] eqn:Er.
    2:{ startup_cases H. }
    assert (Hrt : rt_client rt = GetClient /\
                  rt_rotator rt = NewProxyRotator (validated env ps)).
    { startup_cases H; injection H as <-; split; reflexivity. }
    destruct Hrt as [Hc Hr]. split; [exact Hc|].
    intros k. rewrite Hr. rewrite <- (after_proxies k).
    apply Next_empty_iff. rewrite after_proxies. simpl.
    intros s Hin. eapply ReadFileEntries_nonempty; [exact Er|].
    eapply legal_validation_In; eauto.
  - intros env f ps Hv Hl Hua Hu Ht Hd Hm Hc Hp Hr Hval.
    apply String.eqb_neq in Hp, Ht.
    assert (Hd' : (delayBetweenRequests f <? 0) = false) by (apply Z.ltb_ge; lia).
    assert (Hm' : (maxGoroutines f <? 1) = false) by (apply Z.ltb_ge; lia).
    unfold main_startup.
    rewrite Hv, Hl, Hua, Hp, Hr, Hval, Hu, Ht, Hd', Hm', Hc. simpl.
    eexists. split; [reflexivity|]. simpl.
    split; [reflexivity|]. split; [reflexivity|].
    intros addr k. rewrite after_empty by reflexivity.
    rewrite rotatorDial_empty by reflexivity. reflexivity.
Qed.

Lemma empty_rotator_fails_dial_witness :
  (forall s, In s (proxies (NewProxyRotator ["127.0.0.1:4145"]%string)) ->
             s <> ""%string) /\
  fst (Next (NewProxyRotator ["127.0.0.1:4145"]%string)) <> Returned "" /\
  exists rt,
    main_startup Examples.env_no_proxy_answers Examples.flags_proxied
    = Dispatching rt /\
    dial (rt_client rt) "localhost:8080" (rt_rotator rt)
    = (DialError "proxy address is empty", NewProxyRotator []).
Proof.
  assert (Hne : forall s, In s (proxies (NewProxyRotator ["127.0.0.1:4145"]%string)) ->
                          s <> ""%string).
  { simpl. intros s [<-|[]]. discriminate. }
  split; [exact Hne|]. split.
  - intros H.
    apply (proj1 (proj2 empty_rotator_fails_dial) _ Hne) in H.
    discriminate H.
  - destruct (proj2 (proj2 (proj2 (proj2 (proj2 (proj2 empty_rotator_fails_dial)))))
                Examples.env_no_proxy_answers Examples.flags_proxied
                ["127.0.0.1:4145"; "127.0.0.1:1080"; "10.0.0.1:9"]%string)
      as [rt [Hs [Hc [Hr Hd]]]];
      try reflexivity; try discriminate; try (simpl; lia).
    exists rt. split; [exact Hs|].
    rewrite <- Hr. exact (Hd "localhost:8080"%string 0%N).
Defined.

(** C7, counterexample. A rotator whose one entry is the empty string: its
    list is not empty and [Next] returns the empty string all the same. *)
Lemma Next_empty_string_of_nonempty_list :
  proxies (NewProxyRotator [""%string]) <> [] /\
  fst (Next (NewProxyRotator [""%string])) = Returned "" /\
  ~ (fst (Next (NewProxyRotator [""%string])) = Returned ""
     <-> proxies (NewProxyRotator [""%string]) = []).
Proof.
  split; [discriminate|]. split; [reflexivity|].
  intros [H _]. specialize (H eq_refl). discriminate H.
Qed.

End StartupFacts.

(** ** The run: slots, shutdown and aggregation *)

Module RunFacts.

Import GoInt GoIntFacts Slice SliceFacts Main Invariants.

Ltac unfold_setters :=
  unfold set_sem, set_respChan, set_ctxDone, set_timer, set_disp,
    set_senders, set_aggs, set_wg, set_errCount, set_sentRequestCount,
    set_totalDuration, set_mainG, set_received in *.

(** Case analysis of one action that proceeds. *)
Ltac exec_cases H :=
  unfold exec, sendRequest, processResponse in H;
  repeat match type of H with
         | context [match ?x with _ => _ end] => is_var x; destruct x
         | context [match ?x with _ => _ end] =>
             lazymatch x with
             | context [match _ with _ => _ end] => fail
             | _ => destruct x eqn:?
             end
         end;
  try discriminate H;
  injection H as <-; unfold_setters; simpl in *.

Lemma run_app cap et acts1 : forall acts2 s,
  run cap et (acts1 ++ acts2) s =
  match run cap et acts1 s with
  | Some s' => run cap et acts2 s'
  | None => None
  end.
Proof.
  induction acts1 as [|a rest IH]; intros acts2 s; simpl; [reflexivity|].
  destruct (exec cap et a s); [apply IH | reflexivity].
Qed.

(** Induction over the states of a run. *)
Lemma reachable_ind' cap et (P : state -> Prop) :
  P init ->
  (forall s a s', P s -> exec cap et a s = Some s' -> P s') ->
  forall s, reachable cap et s -> P s.
Proof.
  intros H0 Hstep s [acts Hrun].
  assert (G : forall acts s0, P s0 -> run cap et acts s0 = Some s -> P s).
  { clear acts Hrun. induction acts as [|a rest IH]; intros s0 Hs0 Hr; simpl in Hr.
    - now injection Hr as <-.
    - destruct (exec cap et a s0) as [s1|] eqn:E; [|discriminate].
      eapply IH; [|exact Hr]. eapply Hstep; eauto. }
  eapply G; eauto.
Qed.

Lemma reachable_step cap et s a s' :
  reachable cap et s -> exec cap et a s = Some s' -> reachable cap et s'.
Proof.
  intros [acts Hr] He. exists (acts ++ [a]).
  rewrite run_app, Hr. simpl. now rewrite He.
Qed.

Lemma exec_slots cap et s a s' :
  slots_inv cap s -> exec cap et a s = Some s' -> slots_inv cap s'.
Proof.
  intros [H1 H2 H3] H. destruct a; exec_cases H; constructor; simpl;
    rewrite ?length_app, ?length_set_at; simpl;
    repeat match goal with
           | E : (_ <? _)%nat = true |- _ => apply Nat.ltb_lt in E
           | E : nth_error _ _ = Some _ |- _ => apply length_remove_at in E
           end;
    try lia.
Qed.

Lemma reachable_slots cap et s : reachable cap et s -> slots_inv cap s.
Proof.
  apply reachable_ind'.
  - constructor; simpl; lia.
  - intros; eapply exec_slots; eauto.
Qed.

(** C4. Bounded concurrency.  In every state of a run with admission
    channel of capacity [cap], the live [sendRequest] goroutines are at most
    as many as the values buffered in [sem], which are at most [cap]: each
    sender is backed by a slot of its own from the admission that spawned
    it until it exits.  An admission proceeds only below capacity and adds
    exactly one slot and one sender, and no other action adds a sender.
    The capacity of a run that [main] starts is [*maxGoroutines], which is
    at least 1. *)
Theorem bounded_concurrency cap et :
  (forall s, reachable cap et s ->
     (List.length (senders s) <= sem s)%nat /\ (sem s <= cap)%nat) /\
  (forall s s', exec cap et DispAdmit s = Some s' ->
     (sem s < cap)%nat /\ sem s' = S (sem s) /\
     senders s' = senders s ++ [SRequest]) /\
  (forall s a s', exec cap et a s = Some s' ->
     (List.length (senders s) < List.length (senders s'))%nat ->
     a = DispAdmit) /\
  (forall env f rt, main_startup env f = Dispatching rt ->
     rt_capacity rt = maxGoroutines f /\ 1 <= rt_capacity rt).
Proof.
  split; [|split; [|split]].
  - intros s Hr. destruct (reachable_slots _ _ _ Hr) as [H1 H2 _].
    split; assumption.
  - intros s s' H. exec_cases H.
    match goal with E : (_ <? _)%nat = true |- _ => apply Nat.ltb_lt in E end.
    repeat split; assumption.
  - intros s a s' H Hl. destruct a; try reflexivity; exfalso; exec_cases H;
      rewrite ?length_set_at in Hl;
      repeat match goal with
             | E : nth_error _ _ = Some _ |- _ => apply length_remove_at in E
             end;
      lia.
  - intros env f rt H. StartupFacts.startup_cases H; injection H as <-; simpl;
      match goal with E : (_ <? 1) = false |- _ => apply Z.ltb_ge in E end;
      (split; [reflexivity | lia]).
Qed.

Lemma bounded_concurrency_witness :
  run 2 0 [DispDefault; DispAdmit; DispDefault; DispAdmit] init
  = Some (mkState 2 [] false TArmed DSelect [SRequest; SRequest] [] 0 0 0 0
                  MWaitCtx []) /\
  (List.length [SRequest; SRequest] <= 2)%nat /\
  exec 2 0 DispAdmit
       (mkState 2 [] false TArmed DAdmit [SRequest; SRequest] [] 0 0 0 0
                MWaitCtx []) = None.
Proof.
  assert (H : run 2 0 [DispDefault; DispAdmit; DispDefault; DispAdmit] init
              = Some (mkState 2 [] false TArmed DSelect [SRequest; SRequest]
                              [] 0 0 0 0 MWaitCtx [])) by reflexivity.
  split; [exact H|]. split; [|reflexivity].
  exact (proj1 (proj1 (bounded_concurrency 2 0) _
                  (ex_intro _ [DispDefault; DispAdmit; DispDefault; DispAdmit] H))).
Defined.

Lemma remove_at_set_at {A} i (y : A) l :
  Slice.remove_at i (Slice.set_at i y l) = Slice.remove_at i l.
Proof.
  revert i. induction l as [|x t IH]; intros [|j]; simpl; try reflexivity.
  now rewrite IH.
Qed.

Lemma exec_ctxDone_stable cap et s a s' :
  exec cap et a s = Some s' -> ctxDone s = true -> ctxDone s' = true.
Proof.
  intros H Hd. destruct a; exec_cases H; try assumption; reflexivity.
Qed.

(** C6. Never blocked on shutdown.  Cancellation is permanent.  Once the
    context is cancelled, a sender at its delivery can always take the
    [<-ctx.Done()] branch, which drops its [Result] and leaves channels and
    counters as they are; a sender at its deferred release can always take
    the [<-ctx.Done()] branch and exit; so a sender that lost the race
    exits in two steps of its own.  The release [<-sem] itself can proceed
    in every state of a run, cancelled or not, and takes one value out of
    [sem]. *)
Theorem shutdown_never_blocks cap et :
  (forall s a s', exec cap et a s = Some s' ->
     ctxDone s = true -> ctxDone s' = true) /\
  (forall s i r, ctxDone s = true ->
     nth_error (senders s) i = Some (SDeliver r) ->
     exec cap et (Send i (Select OnDone)) s
     = Some (set_senders (Slice.set_at i SRelease (senders s)) s)) /\
  (forall s i, ctxDone s = true ->
     nth_error (senders s) i = Some SRelease ->
     exec cap et (Send i (Select OnDone)) s
     = Some (set_senders (Slice.remove_at i (senders s)) s)) /\
  (forall s i r, ctxDone s = true ->
     nth_error (senders s) i = Some (SDeliver r) ->
     run cap et [Send i (Select OnDone); Send i (Select OnDone)] s
     = Some (set_senders (Slice.remove_at i (senders s)) s)) /\
  (forall s i, reachable cap et s ->
     nth_error (senders s) i = Some SRelease ->
     exists n, sem s = S n /\
       exec cap et (Send i (Select OnChannel)) s
       = Some (set_senders (Slice.remove_at i (senders s)) (set_sem n s))).
Proof.
  split; [apply exec_ctxDone_stable|].
  split; [|split; [|split]].
  - intros s i r Hd Hn. unfold exec. rewrite Hn. unfold sendRequest.
    now rewrite Hd.
  - intros s i Hd Hn. unfold exec. rewrite Hn. unfold sendRequest.
    now rewrite Hd.
  - intros s i r Hd Hn. destruct s. simpl in Hd, Hn. subst.
    unfold run, exec. simpl. rewrite Hn. unfold set_senders. simpl.
    rewrite (nth_error_set_at _ _ _ _ Hn). simpl.
    rewrite remove_at_set_at. reflexivity.
  - intros s i Hr Hn. destruct (reachable_slots _ _ _ Hr) as [H1 _ _].
    destruct (sem s) as [|n] eqn:Es.
    + apply length_remove_at in Hn. lia.
    + exists n. split; [reflexivity|]. unfold exec. rewrite Hn.
      unfold sendRequest. now rewrite Es.
Qed.

Lemma shutdown_never_blocks_witness :
  run 1 0 [DispDefault; DispAdmit; Send 0 (Finished (mkResult 200 None 7)); Interrupt]
      init
  = Some (mkState 1 [] true TArmed DSelect [SDeliver (mkResult 200 None 7)] []
                  0 0 0 0 MWaitCtx []) /\
  run 1 0 [Send 0 (Select OnDone); Send 0 (Select OnDone)]
      (mkState 1 [] true TArmed DSelect [SDeliver (mkResult 200 None 7)] []
               0 0 0 0 MWaitCtx [])
  = Some (mkState 1 [] true TArmed DSelect [] [] 0 0 0 0 MWaitCtx []).
Proof.
  split; [reflexivity|].
  exact (proj1 (proj2 (proj2 (proj2 (shutdown_never_blocks 1 0))))
           (mkState 1 [] true TArmed DSelect [SDeliver (mkResult 200 None 7)]
                    [] 0 0 0 0 MWaitCtx [])
           0%nat (mkResult 200 None 7) eq_refl eq_refl).
Defined.

Lemma sumZ_cons {A} (f : A -> Z) x l : sumZ f (x :: l) = f x + sumZ f l.
Proof. reflexivity. Qed.

Lemma sumZ_app {A} (f : A -> Z) l x : sumZ f (l ++ [x]) = sumZ f l + f x.
Proof. induction l as [|y t IH]; simpl; [lia | rewrite IH; lia]. Qed.

Lemma sumZ_set_at {A} (f : A -> Z) i y l x :
  nth_error l i = Some x ->
  sumZ f (Slice.set_at i y l) = sumZ f l - f x + f y.
Proof.
  revert i. induction l as [|z t IH]; intros [|j]; simpl; try discriminate.
  - intros H. injection H as ->. lia.
  - intros H. rewrite (IH _ H). lia.
Qed.

Lemma sumZ_remove_at {A} (f : A -> Z) i l x :
  nth_error l i = Some x ->
  sumZ f (Slice.remove_at i l) = sumZ f l - f x.
Proof.
  revert i. induction l as [|z t IH]; intros [|j]; simpl; try discriminate.
  - intros H. injection H as ->. lia.
  - intros H. rewrite (IH _ H). lia.
Qed.

Lemma len_app1 {A} (l : list A) x : len (l ++ [x]) = len l + 1.
Proof. unfold len. rewrite length_app. simpl. lia. Qed.

Lemma len_set_at {A} i (y : A) l : len (Slice.set_at i y l) = len l.
Proof. unfold len. now rewrite length_set_at. Qed.

Lemma len_remove_at {A} i (l : list A) x :
  nth_error l i = Some x -> len (Slice.remove_at i l) = len l - 1.
Proof. intros H. apply length_remove_at in H. unfold len. lia. Qed.

Lemma exec_agg cap et s a s' :
  agg_inv s -> exec cap et a s = Some s' -> agg_inv s'.
Proof.
  intros [He Hs Hd Hen Hel Hsn Hw] H.
  unfold errs_done, sent_done, durs_done, errs_of, durs_of in *.
  destruct a; exec_cases H; constructor;
    unfold errs_done, sent_done, durs_done, errs_of, durs_of; simpl;
    repeat match goal with
           | E : nth_error _ _ = Some _ |- _ =>
               rewrite ?(sumZ_set_at _ _ _ _ _ E), ?(sumZ_remove_at _ _ _ _ E),
                 ?(len_remove_at _ _ _ E);
               clear E
           end;
    rewrite ?sumZ_app, ?len_app1, ?len_set_at; simpl;
    rewrite ?He, ?Hs, ?Hd, ?AddInt64_int64, ?int64_add_r;
    set (PE := sumZ pend_err (aggs s)) in *;
    set (PS := sumZ pend_sent (aggs s)) in *;
    set (PD := sumZ pend_dur (aggs s)) in *;
    set (PB := sumZ between (aggs s)) in *;
    set (RE := sumZ err_weight (received s)) in *;
    set (RD := sumZ duration (received s)) in *;
    clearbody PE PS PD PB RE RD;
    unfold pend_err, pend_sent, pend_dur, between, err_weight, has_err;
    simpl;
    repeat match goal with
           | E : is_nil _ = _ |- _ => rewrite E; clear E
           end; simpl;
    try assumption; try (f_equal; lia); try lia;
    try (destruct (is_nil (err r)); simpl; lia).
Qed.

Lemma reachable_agg cap et s : reachable cap et s -> agg_inv s.
Proof.
  apply reachable_ind'.
  - constructor; reflexivity || (cbv; congruence).
  - intros; eapply exec_agg; eauto.
Qed.

Lemma between_le_pend (t : agg_pc * Result) : 0 <= between t <= pend_sent t.
Proof.
  destruct t as [pc r]. unfold between, pend_sent, err_weight.
  destruct pc; simpl; try lia. destruct (has_err r); lia.
Qed.

Lemma between_bounds (l : list (agg_pc * Result)) :
  0 <= sumZ between l <= sumZ pend_sent l.
Proof.
  induction l as [|x t IH]; [simpl; lia|].
  rewrite !sumZ_cons. pose proof (between_le_pend x). lia.
Qed.

Lemma pend_sent_nth (l : list (agg_pc * Result)) i t :
  nth_error l i = Some t -> pend_sent t <= sumZ pend_sent l.
Proof.
  intros H. pose proof (between_bounds (Slice.remove_at i l)) as Hb.
  rewrite (sumZ_remove_at pend_sent _ _ _ H) in Hb. lia.
Qed.

Lemma errs_of_bounds (l : list Result) : 0 <= errs_of l <= len l.
Proof.
  unfold errs_of, len. induction l as [|r t IH]; [simpl; lia|].
  rewrite sumZ_cons. change (List.length (r :: t)) with (S (List.length t)).
  assert (0 <= err_weight r <= 1) by (unfold err_weight; destruct (has_err r); lia).
  lia.
Qed.

(** The counters of a state are not wrapped as long as the number of
    results received fits an [int64]. *)
Lemma counters_exact cap et s :
  reachable cap et s -> len (received s) <= max_int64 ->
  errCount s = errs_done s /\ sentRequestCount s = sent_done s /\
  0 <= errs_done s <= sent_done s + sumZ between (aggs s) /\
  0 <= sent_done s <= len (received s).
Proof.
  intros Hr Hmax. destruct (reachable_agg _ _ _ Hr) as [He Hs _ Hen Hel Hsn _].
  pose proof (between_bounds (aggs s)) as Hb.
  assert (Hle : sent_done s <= len (received s)) by (unfold sent_done; lia).
  assert (Hle' : sent_done s + sumZ between (aggs s) <= len (received s))
    by (unfold sent_done; lia).
  rewrite He, Hs.
  rewrite !int64_id by (unfold in_int64, min_int64, max_int64 in *; lia).
  repeat split; lia.
Qed.

Lemma consume_one cap et e sc td m rcv r :
  run (S cap) et (Examples.consume_block r)
      (mkState 0 [] false TArmed DSelect [] [] 0 e sc td m rcv)
  = Some (mkState 0 [] false TArmed DSelect [] [] 0
                  (if is_nil (err r) then e else AddInt64 e 1)
                  (AddInt64 sc 1)
                  (AddInt64 td (int64 (duration r)))
                  m (rcv ++ [r])).
Proof.
  change (Examples.consume_block r)
    with ([DispDefault; DispAdmit; Send 0 (Finished r); Send 0 (Select OnChannel);
           Send 0 (Select OnChannel); DispRecv]
          ++ [Agg 0] ++ [Agg 0; Agg 0; Agg 0]).
  rewrite run_app.
  replace (run (S cap) et
             [DispDefault; DispAdmit; Send 0 (Finished r); Send 0 (Select OnChannel);
              Send 0 (Select OnChannel); DispRecv]
             (mkState 0 [] false TArmed DSelect [] [] 0 e sc td m rcv))
    with (Some (mkState 0 [] false TArmed DSelect [] [(AErr, r)] 1 e sc td m
                        (rcv ++ [r]))) by reflexivity.
  rewrite run_app.
  replace (run (S cap) et [Agg 0]
             (mkState 0 [] false TArmed DSelect [] [(AErr, r)] 1 e sc td m
                      (rcv ++ [r])))
    with (Some (mkState 0 [] false TArmed DSelect [] [(ASent, r)] 1
                        (if is_nil (err r) then e else AddInt64 e 1)
                        sc td m (rcv ++ [r])))
    by (simpl; destruct (is_nil (err r)); reflexivity).
  reflexivity.
Qed.

(** Every finite list of results can be consumed by a run that ends with no
    aggregation task in flight. *)
Lemma consume_all cap et (rs : list Result) :
  exists s, reachable (S cap) et s /\ received s = rs /\ aggs s = [].
Proof.
  assert (G : exists e sc td acts,
    run (S cap) et acts init
    = Some (mkState 0 [] false TArmed DSelect [] [] 0 e sc td MWaitCtx rs)).
  { induction rs as [|r rs IH] using rev_ind.
    - exists 0, 0, 0, []. reflexivity.
    - destruct IH as [e [sc [td [acts Hr]]]].
      pose proof (consume_one cap et e sc td MWaitCtx rs r) as Hc.
      do 3 eexists. exists (acts ++ Examples.consume_block r).
      rewrite run_app, Hr. exact Hc. }
  destruct G as [e [sc [td [acts Hr]]]].
  eexists. split; [exists acts; exact Hr|]. split; reflexivity.
Qed.

Lemma exec_sent_monotone cap et s a s' :
  reachable cap et s -> exec cap et a s = Some s' ->
  len (received s') <= max_int64 ->
  sentRequestCount s <= sentRequestCount s'.
Proof.
  intros Hr H Hmax.
  destruct a; try (exec_cases H; lia).
  unfold exec in H.
  destruct (nth_error (aggs s) i) as [[pc r]|] eqn:En; [|discriminate].
  destruct pc; simpl in H; injection H as <-.
  - destruct (is_nil (err r)); simpl; lia.
  - unfold_setters. simpl in *.
    destruct (counters_exact _ _ _ Hr Hmax) as [_ [Hs [_ Hb]]].
    pose proof (pend_sent_nth _ _ _ En) as Hp.
    change (pend_sent (ASent, r)) with 1 in Hp.
    unfold sent_done in *. unfold AddInt64.
    rewrite int64_id; [lia|].
    unfold in_int64, min_int64, max_int64 in *. lia.
  - simpl. lia.
  - simpl. lia.
Qed.

(** C2 (as amended). Aggregation counting.  Every finite list of results
    can be consumed.  In every state of a run in which no aggregation task
    is in flight, with [K] results received so far, the sent counter is [K],
    the error counter is the number of results with a non-nil error and the
    cumulative duration is the sum of their durations, as long as [K] and
    that sum fit an [int64].  In every state, the error counter is at most
    the sent counter plus the number of tasks that stand between their two
    increments, hence at most the sent counter when there is no such task,
    and the sent counter is at most [K]; no action decreases the sent
    counter. *)
Theorem aggregation_counts cap et :
  (forall rs, exists s,
     reachable (S cap) et s /\ received s = rs /\ aggs s = []) /\
  (forall s, reachable cap et s -> aggs s = [] ->
     len (received s) <= max_int64 -> in_int64 (durs_of (received s)) ->
     sentRequestCount s = len (received s) /\
     errCount s = errs_of (received s) /\
     totalDuration s = durs_of (received s)) /\
  (forall s, reachable cap et s -> len (received s) <= max_int64 ->
     0 <= errCount s <= sentRequestCount s + sumZ between (aggs s) /\
     (sumZ between (aggs s) = 0 -> errCount s <= sentRequestCount s) /\
     0 <= sentRequestCount s <= len (received s)) /\
  (forall s a s', reachable cap et s -> exec cap et a s = Some s' ->
     len (received s') <= max_int64 ->
     sentRequestCount s <= sentRequestCount s').
Proof.
  split; [apply consume_all|]. split; [|split].
  - intros s Hr Ha Hmax Hd.
    destruct (counters_exact _ _ _ Hr Hmax) as [He [Hs _]].
    destruct (reachable_agg _ _ _ Hr) as [_ _ Hdur _ _ _ _].
    rewrite He, Hs, Hdur.
    unfold errs_done, sent_done, durs_done. rewrite Ha.
    change (sumZ pend_err []) with 0. change (sumZ pend_sent []) with 0.
    change (sumZ pend_dur []) with 0. rewrite !Z.sub_0_r.
    rewrite (int64_id _ Hd). repeat split; reflexivity.
  - intros s Hr Hmax.
    destruct (counters_exact _ _ _ Hr Hmax) as [He [Hs [Hb1 Hb2]]].
    rewrite He, Hs. repeat split; lia.
  - apply exec_sent_monotone.
Qed.

Lemma aggregation_counts_witness :
  run 1 0 (Examples.consume_block Examples.refused
           ++ Examples.consume_block Examples.served) init
  = Some (mkState 0 [] false TArmed DSelect [] [] 0 1 2 1007 MWaitCtx
                  [Examples.refused; Examples.served]) /\
  sentRequestCount
    (mkState 0 [] false TArmed DSelect [] [] 0 1 2 1007 MWaitCtx
             [Examples.refused; Examples.served]) = 2 /\
  errCount
    (mkState 0 [] false TArmed DSelect [] [] 0 1 2 1007 MWaitCtx
             [Examples.refused; Examples.served]) = 1 /\
  totalDuration
    (mkState 0 [] false TArmed DSelect [] [] 0 1 2 1007 MWaitCtx
             [Examples.refused; Examples.served]) = 1007.
Proof.
  assert (H : run 1 0 (Examples.consume_block Examples.refused
                       ++ Examples.consume_block Examples.served) init
              = Some (mkState 0 [] false TArmed DSelect [] [] 0 1 2 1007
                              MWaitCtx [Examples.refused; Examples.served]))
    by (vm_compute; reflexivity).
  split; [exact H|].
  apply (proj1 (proj2 (aggregation_counts 1 0))
           (mkState 0 [] false TArmed DSelect [] [] 0 1 2 1007 MWaitCtx
                    [Examples.refused; Examples.served])).
  - eexists. exact H.
  - reflexivity.
  - vm_compute. discriminate.
  - split; vm_compute; discriminate.
Defined.

(** C2, counterexample. With one failed request aggregated up to its error
    increment, the error counter is 1 and the sent counter 0; when the
    dispatcher takes the result off the channel after [main] got past
    [wg.Wait()], the report itself can read those values.  And two results
    of [2^62] nanoseconds each leave the cumulative duration at [-2^63], not
    at their sum. *)
Lemma errors_exceed_sent_between_increments :
  (exists s,
     run 1 0 [DispDefault; DispAdmit; Send 0 (Finished Examples.refused);
              Send 0 (Select OnChannel); DispRecv; Agg 0] init = Some s /\
     errCount s = 1 /\ sentRequestCount s = 0 /\
     ~ errCount s <= sentRequestCount s) /\
  (exists s rep,
     run 1 0 Examples.late_aggregation init = Some s /\
     mainG s = MReported rep /\ errors rep = 1 /\ sent_requests rep = 0) /\
  (exists s,
     run 1 0 (Examples.consume_block Examples.ages
              ++ Examples.consume_block Examples.ages) init = Some s /\
     aggs s = [] /\
     totalDuration s = - 2 ^ 63 /\ durs_of (received s) = 2 ^ 63).
Proof.
  split; [|split].
  - eexists. split; [vm_compute; reflexivity|].
    simpl. repeat split; lia.
  - do 2 eexists. split; [vm_compute; reflexivity|].
    simpl. repeat split.
  - eexists. split; [vm_compute; reflexivity|].
    repeat split.
Qed.

End RunFacts.

(** ** Results of failed attempts, and the final report *)

Module ReportFacts.

Import GoInt Slice SliceFacts Main Invariants RunFacts.

(** C9 (as amended). The [Result] of an attempt that produced no response
    carries the elapsed time and the error, and as status whatever
    [Response.StatusCode] reports for the response object as it was
    acquired; with fasthttp's accessor that is [StatusOK], 200. *)
Theorem no_response_Result (a : Attempt) :
  no_response a ->
  (forall statusOf,
     status (sendRequest_Result statusOf a)
     = statusOf Fasthttp.AcquireResponse /\
     duration (sendRequest_Result statusOf a) = elapsed a /\
     err (sendRequest_Result statusOf a) = doErr a /\
     err (sendRequest_Result statusOf a) <> None) /\
  status (sendRequest_Result Fasthttp.StatusCode a) = Fasthttp.StatusOK.
Proof.
  intros [He Hf]. unfold sendRequest_Result. simpl. rewrite Hf.
  split; [|reflexivity].
  intros statusOf. repeat split; assumption.
Qed.

Lemma no_response_Result_witness :
  no_response Examples.refused_attempt /\
  sendRequest_Result Fasthttp.StatusCode Examples.refused_attempt
  = Examples.refused.
Proof.
  assert (H : no_response Examples.refused_attempt).
  { split; [discriminate | reflexivity]. }
  split; [exact H|].
  pose proof (proj2 (no_response_Result _ H)) as Hs.
  reflexivity.
Defined.

(** C9, counterexample. A refused connection: the attempt has produced no
    response, and the status of its [Result] is 200, not 0. *)
Lemma no_response_status_is_not_zero :
  no_response Examples.refused_attempt /\
  status (sendRequest_Result Fasthttp.StatusCode Examples.refused_attempt)
  = 200 /\
  status (sendRequest_Result Fasthttp.StatusCode Examples.refused_attempt)
  <> 0.
Proof.
  split; [split; [discriminate | reflexivity]|].
  split; [reflexivity | discriminate].
Qed.

Lemma exec_main cap et s a s' :
  main_inv s -> exec cap et a s = Some s' -> main_inv s'.
Proof.
  unfold main_inv. intros Hm H.
  destruct a; exec_cases H;
    try (destruct (mainG s); try destruct Hm; auto; discriminate);
    try assumption; try reflexivity.
  - split; [assumption|]. do 4 eexists. reflexivity.
Qed.

Lemma reachable_main cap et s : reachable cap et s -> main_inv s.
Proof.
  apply reachable_ind'.
  - exact I.
  - intros; eapply exec_main; eauto.
Qed.

Lemma exec_after_return cap et s a s' :
  disp s = DReturned -> exec cap et a s = Some s' ->
  disp s' = DReturned /\ received s' = received s /\
  (List.length (senders s') <= List.length (senders s))%nat /\
  (List.length (aggs s') <= List.length (aggs s))%nat /\
  exists more, respChan s' = respChan s ++ more.
Proof.
  intros Hd H.
  destruct a; exec_cases H; try congruence;
    rewrite ?length_set_at;
    repeat match goal with
           | E : nth_error _ _ = Some _ |- _ => apply length_remove_at in E
           end;
    repeat split; try assumption; try lia;
    try (exists []; now rewrite app_nil_r);
    try (eexists; reflexivity).
Qed.

Lemma exec_reported cap et s a s' rep :
  mainG s = MReported rep -> exec cap et a s = Some s' ->
  mainG s' = MReported rep.
Proof.
  intros Hm H. destruct a; exec_cases H; congruence.
Qed.

(** Once the dispatcher has returned, the tasks are joined and the report
    is made, nothing of it changes any more. *)
Lemma run_reported cap et rep acts : forall s s',
  disp s = DReturned -> aggs s = [] -> mainG s = MReported rep ->
  run cap et acts s = Some s' ->
  disp s' = DReturned /\ aggs s' = [] /\ mainG s' = MReported rep /\
  received s' = received s.
Proof.
  induction acts as [|a rest IH]; intros s s' Hd Ha Hm Hr; cbn [run] in Hr.
  - injection Hr as <-. now repeat split.
  - destruct (exec cap et a s) as [s1|] eqn:E; [|discriminate].
    destruct (exec_after_return _ _ _ _ _ Hd E) as [Hd1 [Hr1 [_ [Ha1 _]]]].
    pose proof (exec_reported _ _ _ _ _ _ Hm E) as Hm1.
    assert (Ha1' : aggs s1 = []).
    { rewrite Ha in Ha1. destruct (aggs s1); [reflexivity|simpl in Ha1; lia]. }
    destruct (IH _ _ Hd1 Ha1' Hm1 Hr) as [H1 [H2 [H3 H4]]].
    repeat split; congruence.
Qed.

(** The counters once the tasks are joined: they hold the totals of the
    results received. *)
Lemma joined_counters cap et s :
  reachable cap et s -> aggs s = [] -> len (received s) <= max_int64 ->
  sentRequestCount s = len (received s) /\
  errCount s = errs_of (received s) /\
  totalDuration s = int64 (durs_of (received s)).
Proof.
  intros Hr Ha Hmax.
  destruct (counters_exact _ _ _ Hr Hmax) as [He [Hs _]].
  destruct (reachable_agg _ _ _ Hr) as [_ _ Hd _ _ _ _].
  unfold errs_done, sent_done, durs_done in *. rewrite Ha in *.
  change (sumZ pend_err []) with 0 in He.
  change (sumZ pend_sent []) with 0 in Hs.
  change (sumZ pend_dur []) with 0 in Hd.
  rewrite Z.sub_0_r in *. now repeat split.
Qed.

(** C5. The final report.  Take a state of a run in which the dispatch
    loop has returned, every aggregation task is joined and [main] is past
    [wg.Wait()]; fewer than [2^63] results were received.  Then the context
    is cancelled and [main] emits a report in which the sent count is the
    number of results received and the error count the number of those
    with an error; the average request duration is the cumulative duration
    of the results received (as the [int64] counter holds it) divided by
    the sent count, as [float64] values, and it is 0, no division being
    evaluated, when nothing was received (the quotient of the counters
    would then be 0/0, not a number); the requests per second are the sent
    count divided by the time elapsed since the start in seconds, the whole
    seconds plus the remaining nanoseconds over [1e9].  The report is
    final: whatever happens afterwards, no further result is received and
    the report stays as it is. *)
Theorem final_report_formulas cap et s sinceStart :
  reachable cap et s ->
  disp s = DReturned -> aggs s = [] -> mainG s = MJoined ->
  len (received s) <= max_int64 ->
  ctxDone s = true /\
  exists rep,
    exec cap et (MainReport sinceStart) s
    = Some (set_mainG (MReported rep) s) /\
    sent_requests rep = len (received s) /\
    errors rep = errs_of (received s) /\
    (received s <> [] ->
     average_request_duration rep
     = (float64 (int64 (durs_of (received s)))
        / float64 (len (received s)))%float) /\
    (received s = [] ->
     average_request_duration rep = 0%float /\
     PrimFloat.is_nan (float64 (totalDuration s)
                       / float64 (sentRequestCount s))%float = true) /\
    requests_per_second rep
    = (float64 (len (received s))
       / (float64 (Z.quot sinceStart 1000000000)
          + float64 (Z.rem sinceStart 1000000000) / 1e9))%float /\
    (forall acts s',
       run cap et acts (set_mainG (MReported rep) s) = Some s' ->
       mainG s' = MReported rep /\ received s' = received s /\
       disp s' = DReturned /\ aggs s' = []).
Proof.
  intros Hr Hd Ha Hm Hmax.
  destruct (joined_counters _ _ _ Hr Ha Hmax) as [Hs [He Ht]].
  split.
  { pose proof (reachable_main _ _ _ Hr) as Hi.
    unfold main_inv in Hi. now rewrite Hm in Hi. }
  exists (finalReport (sentRequestCount s) (errCount s) (totalDuration s)
                      sinceStart).
  split; [unfold exec; now rewrite Hm|].
  unfold finalReport. cbn [sent_requests errors average_request_duration
                           requests_per_second].
  rewrite Hs, He, Ht.
  split; [reflexivity|]. split; [reflexivity|]. split; [|split; [|split]].
  - intros Hne. replace (len (received s) >? 0) with true; [reflexivity|].
    symmetry. apply Z.gtb_lt. unfold len.
    destruct (received s); [contradiction|]. cbn [List.length]. lia.
  - intros Hnil. rewrite Hnil. split; reflexivity.
  - reflexivity.
  - intros acts s' Hrun.
    match type of Hrun with
    | run _ _ _ ?s1 = _ =>
        destruct (run_reported cap et _ acts s1 s' Hd Ha eq_refl Hrun)
          as [H1 [H2 [H3 H4]]]
    end.
    now repeat split.
Qed.

Lemma final_report_formulas_witness :
  run 2 0 Examples.two_requests_joined init
  = Some (mkState 0 [] true TArmed DReturned [] [] 0 1 2 1007 MJoined
                  [{| status := 200; err := None; duration := 7 |};
                   Examples.refused]) /\
  exists rep,
    exec 2 0 (MainReport 500000000)
         (mkState 0 [] true TArmed DReturned [] [] 0 1 2 1007 MJoined
                  [{| status := 200; err := None; duration := 7 |};
                   Examples.refused])
    = Some (mkState 0 [] true TArmed DReturned [] [] 0 1 2 1007
                    (MReported rep)
                    [{| status := 200; err := None; duration := 7 |};
                     Examples.refused]) /\
    sent_requests rep = 2 /\ errors rep = 1 /\
    average_request_duration rep = 503.5%float /\
    requests_per_second rep = 4%float.
Proof.
  assert (H : run 2 0 Examples.two_requests_joined init
              = Some (mkState 0 [] true TArmed DReturned [] [] 0 1 2 1007
                              MJoined
                              [{| status := 200; err := None; duration := 7 |};
                               Examples.refused])) by reflexivity.
  split; [exact H|].
  destruct (final_report_formulas 2 0 _ 500000000 (ex_intro _ _ H)
              eq_refl eq_refl eq_refl)
    as [_ [rep [Hexec [Hsent [Herr [Havg [_ [Hrps _]]]]]]]].
  { unfold max_int64. cbn. lia. }
  exists rep. split; [exact Hexec|].
  split; [exact Hsent|]. split; [exact Herr|]. split.
  - rewrite Havg by discriminate. vm_compute. reflexivity.
  - rewrite Hrps. vm_compute. reflexivity.
Defined.

(** The join of [main] does not wait for the dispatcher: in this run
    [main] gets past [wg.Wait()] while a result is still in the channel,
    and reports while the task of that result is in flight and the dispatch
    loop has not returned; the report counts an error and no request. *)
Example report_can_precede_join :
  run 1 0 Examples.late_aggregation init
  = Some (mkState 1 [] true TArmed DSelect [SRelease]
                  [(ASent, Examples.refused)] 1 1 0 0
                  (MReported (finalReport 0 1 0 1000000000))
                  [Examples.refused]) /\
  sent_requests (finalReport 0 1 0 1000000000) = 0 /\
  errors (finalReport 0 1 0 1000000000) = 1.
Proof. split; [vm_compute; reflexivity | split; reflexivity]. Qed.

End ReportFacts.

(** ** The definitions on concrete inputs *)

Module Checks.

Import GoInt Slice Proxy Main.

Example rem_truncates : rem (-1) 2 = -1 /\ rem 7 3 = 1 /\ rem (-7) 3 = -1.
Proof. repeat split. Qed.

Example AddUint32_wraps : AddUint32 (2 ^ 32 - 1) 1 = 0.
Proof. reflexivity. Qed.

Example AddInt64_wraps : AddInt64 max_int64 1 = min_int64.
Proof. reflexivity. Qed.

Example rotation_of_three :
  map (nth_call ["a"; "b"; "c"]%string) [1; 2; 3; 4; 5]
  = [Returned "a"; Returned "b"; Returned "c"; Returned "a"; Returned "b"].
Proof. reflexivity. Qed.

Example dial_through_proxy :
  dial GetClient "localhost:8080" (NewProxyRotator ["127.0.0.1:4145"]%string)
  = (ViaSocks5 "socks5://127.0.0.1:4145" "localhost:8080",
     {| proxies := ["127.0.0.1:4145"]%string; current := 1 |}).
Proof. reflexivity. Qed.

Example TrimSpace_ends :
  Util.TrimSpace "  127.0.0.1:1080 " = "127.0.0.1:1080"%string /\
  Util.TrimSpace "a b" = "a b"%string /\
  Util.TrimSpace "   " = ""%string.
Proof. repeat split. Qed.

Example entries_of_file :
  Util.ReadFileEntries Examples.fs_one "proxies.txt"
  = inl ["127.0.0.1:4145"; "127.0.0.1:1080"; "10.0.0.1:9"]%string /\
  Util.ReadFileEntries Examples.fs_one "missing.txt" = inr "no such file"%string.
Proof. split; reflexivity. Qed.

Example ToUpper_method beyond : strings_ToUpper beyond "get" = "GET"%string.
Proof. reflexivity. Qed.

Example TrimSpace_beyond_ascii :
  Util.TrimSpace (Examples.nbsp ++ "a b" ++ Examples.em_space ++ " ")
  = "a b"%string /\
  Util.TrimSpace (Examples.em_space ++ Examples.nbsp) = ""%string /\
  Util.TrimSpace (String (ascii_of_nat 160) "a" ++ String (ascii_of_nat 194) "")
  = (String (ascii_of_nat 160) "a" ++ String (ascii_of_nat 194) "")%string.
Proof. repeat split. Qed.

Example probes_in_input_order :
  ValidateProxies ["p1"; "p2"; "p3"]%string
    (in_order (fun p => String.eqb p "p2") ["p1"; "p2"; "p3"]%string)
  = Some (["p2"]%string, ["p1"; "p3"]%string).
Proof. reflexivity. Qed.

Example blocked_until_all_probes_resolve :
  ValidateProxies ["p1"; "p2"]%string [(0%nat, None)] = None.
Proof. reflexivity. Qed.

Example startup_of_proxied_flags :
  main_startup Examples.env_no_proxy_answers Examples.flags_proxied
  = Dispatching {| rt_method := "GET";
                   rt_client := GetClient;
                   rt_rotator := NewProxyRotator [];
                   rt_limiter := None;
                   rt_userAgentList := [];
                   rt_capacity := 10 |}.
Proof. reflexivity. Qed.

Example Seconds_of_duration :
  Seconds 1500000000 = 1.5%float /\ float64 (-3) = (-3)%float.
Proof. split; vm_compute; reflexivity. Qed.

Example default_needs_quiet_select :
  exec 1 0 DispDefault (set_ctxDone true init) = None /\
  exec 1 0 DispDefault init = Some (set_disp DAdmit init).
Proof. split; reflexivity. Qed.

End Checks.

(** ** [ReadFileEntries] *)

Module UtilFacts.

Import Util Invariants.

(** How a string starts: with no white space, or with a white space rune
    of one, two or three bytes. *)
Lemma leading_cases s :
  leading_space s = false \/
  (exists a r, s = String a r /\ is_space a = true) \/
  (exists a b r, s = String a (String b r) /\
                 is_space a = false /\ is_space2 a b = true) \/
  (exists a b c r, s = String a (String b (String c r)) /\
                   is_space a = false /\ is_space2 a b = false /\
                   is_space3 a b c = true).
Proof.
  destruct s as [|a s1]; [now left|].
  destruct (is_space a) eqn:E1; [right; left; now exists a, s1|].
  destruct s1 as [|b s2]; [left; exact E1|].
  destruct (is_space2 a b) eqn:E2; [right; right; left; now exists a, b, s2|].
  destruct s2 as [|c s3]; [left; unfold leading_space; now rewrite E1, E2|].
  destruct (is_space3 a b c) eqn:E3.
  - right; right; right. now exists a, b, c, s3.
  - left. unfold leading_space. now rewrite E1, E2, E3.
Qed.

Lemma leading_space_false a s :
  leading_space (String a s) = false ->
  is_space a = false /\
  match s with
  | EmptyString => True
  | String b s2 =>
      is_space2 a b = false /\
      match s2 with
      | EmptyString => True
      | String c _ => is_space3 a b c = false
      end
  end.
Proof.
  unfold leading_space. destruct s as [|b [|c s3]]; intros H.
  - now split.
  - apply orb_false_elim in H. destruct H. now repeat split.
  - apply orb_false_elim in H. destruct H as [H H3].
    apply orb_false_elim in H. destruct H. now repeat split.
Qed.

Lemma trim_left_1 a s : is_space a = true -> trim_left (String a s) = trim_left s.
Proof. intros E. cbn [trim_left]. now rewrite E. Qed.

Lemma trim_left_2 a b s :
  is_space a = false -> is_space2 a b = true ->
  trim_left (String a (String b s)) = trim_left s.
Proof. intros E1 E2. cbn [trim_left]. now rewrite E1, E2. Qed.

Lemma trim_left_3 a b c s :
  is_space a = false -> is_space2 a b = false -> is_space3 a b c = true ->
  trim_left (String a (String b (String c s))) = trim_left s.
Proof. intros E1 E2 E3. cbn [trim_left]. now rewrite E1, E2, E3. Qed.

Lemma all_space_1 a s : is_space a = true -> all_space (String a s) = all_space s.
Proof. intros E. cbn [all_space]. now rewrite E. Qed.

Lemma all_space_2 a b s :
  is_space a = false -> is_space2 a b = true ->
  all_space (String a (String b s)) = all_space s.
Proof. intros E1 E2. cbn [all_space]. now rewrite E1, E2. Qed.

Lemma all_space_3 a b c s :
  is_space a = false -> is_space2 a b = false -> is_space3 a b c = true ->
  all_space (String a (String b (String c s))) = all_space s.
Proof. intros E1 E2 E3. cbn [all_space]. now rewrite E1, E2, E3. Qed.

Lemma trim_left_id s : starts_clean s -> trim_left s = s.
Proof.
  unfold starts_clean. destruct s as [|a s]; [trivial|]. intros H.
  apply leading_space_false in H. destruct H as [E1 H].
  cbn [trim_left]. rewrite E1. destruct s as [|b s2]; [trivial|].
  destruct H as [E2 H]. rewrite E2. destruct s2 as [|c s3]; [trivial|].
  now rewrite H.
Qed.

Lemma all_space_clean s :
  leading_space s = false -> all_space s = true -> s = ""%string.
Proof.
  destruct s as [|a s]; [trivial|]. intros H.
  apply leading_space_false in H. destruct H as [E1 H].
  cbn [all_space]. rewrite E1. destruct s as [|b s2]; [discriminate|].
  destruct H as [E2 H]. rewrite E2. destruct s2 as [|c s3]; [discriminate|].
  now rewrite H.
Qed.

(** Induction along the white space a string starts with. *)
Lemma space_ind (P : string -> Prop) :
  (forall s, leading_space s = false -> P s) ->
  (forall a s, is_space a = true -> P s -> P (String a s)) ->
  (forall a b s, is_space a = false -> is_space2 a b = true ->
                 P s -> P (String a (String b s))) ->
  (forall a b c s, is_space a = false -> is_space2 a b = false ->
                   is_space3 a b c = true ->
                   P s -> P (String a (String b (String c s)))) ->
  forall s, P s.
Proof.
  intros H0 H1 H2 H3 s.
  assert (H : forall n s, (String.length s <= n)%nat -> P s).
  { clear s. induction n as [|n IH]; intros s Hn.
    - destruct s; [now apply H0 | simpl in Hn; lia].
    - destruct (leading_cases s)
        as [E|[[a [r [-> E]]]|[[a [b [r [-> [E1 E2]]]]]
                               |[a [b [c [r [-> [E1 [E2 E3]]]]]]]]]].
      + now apply H0.
      + apply H1; [exact E|]. apply IH. simpl in Hn. lia.
      + apply H2; try assumption. apply IH. simpl in Hn. lia.
      + apply H3; try assumption. apply IH. simpl in Hn. lia. }
  apply (H (String.length s)). apply Nat.le_refl.
Qed.

Lemma trim_left_clean s : starts_clean (trim_left s).
Proof.
  unfold starts_clean. induction s as [s E|a s E IH|a b s E1 E2 IH|a b c s E1 E2 E3 IH]
    using space_ind.
  - now rewrite trim_left_id.
  - now rewrite trim_left_1.
  - now rewrite trim_left_2.
  - now rewrite trim_left_3.
Qed.

Lemma trim_left_split s :
  exists pre, all_space pre = true /\ s = (pre ++ trim_left s)%string.
Proof.
  induction s as [s E|a s E [pre [Hp Hs]]|a b s E1 E2 [pre [Hp Hs]]
                  |a b c s E1 E2 E3 [pre [Hp Hs]]] using space_ind.
  - exists ""%string. split; [reflexivity|]. now rewrite trim_left_id.
  - exists (String a pre). rewrite all_space_1, trim_left_1 by assumption.
    split; [exact Hp|]. cbn [append]. now rewrite <- Hs.
  - exists (String a (String b pre)).
    rewrite all_space_2, trim_left_2 by assumption.
    split; [exact Hp|]. cbn [append]. now rewrite <- Hs.
  - exists (String a (String b (String c pre))).
    rewrite all_space_3, trim_left_3 by assumption.
    split; [exact Hp|]. cbn [append]. now rewrite <- Hs.
Qed.

Lemma all_space_app x y :
  all_space x = true -> all_space y = true -> all_space (x ++ y) = true.
Proof.
  intros Hx Hy. revert Hx.
  induction x as [x E|a x E IH|a b x E1 E2 IH|a b c x E1 E2 E3 IH]
    using space_ind; intros Hx.
  - now rewrite (all_space_clean x E Hx).
  - cbn [append]. rewrite all_space_1 in * by assumption. auto.
  - cbn [append]. rewrite all_space_2 in * by assumption. auto.
  - cbn [append]. rewrite all_space_3 in * by assumption. auto.
Qed.

Lemma leading_space_app u v :
  leading_space u = true -> leading_space (u ++ v) = true.
Proof.
  destruct u as [|a [|b [|c u]]]; cbn [append leading_space]; try discriminate.
  - intros E. destruct v as [|b [|c v]]; cbn [leading_space]; now rewrite E.
  - intros E. destruct v as [|c v]; cbn [leading_space]; [exact E|].
    now rewrite E.
  - trivial.
Qed.

Lemma trim_right_cons c s :
  trim_right (String c s)
  = if all_space (String c s) then ""%string else String c (trim_right s).
Proof. reflexivity. Qed.

Lemma trailing_space_cons c s :
  trailing_space (String c s) = all_space (String c s) || trailing_space s.
Proof. reflexivity. Qed.

Lemma trim_right_split s :
  exists post, all_space post = true /\ s = (trim_right s ++ post)%string.
Proof.
  induction s as [|c s [post [Hp Hs]]].
  - exists ""%string. split; reflexivity.
  - rewrite trim_right_cons. destruct (all_space (String c s)) eqn:E.
    + exists (String c s). split; [exact E | reflexivity].
    + exists post. split; [exact Hp|]. cbn [append]. now rewrite <- Hs.
Qed.

Lemma trim_right_clean s : ends_clean (trim_right s).
Proof.
  unfold ends_clean. induction s as [|c s IH]; [reflexivity|].
  rewrite trim_right_cons. destruct (all_space (String c s)) eqn:E;
    [reflexivity|].
  rewrite trailing_space_cons, IH, orb_false_r.
  destruct (all_space (String c (trim_right s))) eqn:E'; [|reflexivity].
  destruct (trim_right_split s) as [post [Hp Hs]].
  rewrite Hs in E. change (String c (trim_right s ++ post))
    with (String c (trim_right s) ++ post)%string in E.
  now rewrite all_space_app in E.
Qed.

Lemma trim_right_starts s : starts_clean s -> starts_clean (trim_right s).
Proof.
  unfold starts_clean. intros H.
  destruct (leading_space (trim_right s)) eqn:E; [|reflexivity].
  destruct (trim_right_split s) as [post [_ Hs]].
  rewrite Hs in H. now rewrite leading_space_app in H.
Qed.

Lemma trim_right_id s : ends_clean s -> trim_right s = s.
Proof.
  unfold ends_clean. induction s as [|c s IH]; [trivial|].
  rewrite trailing_space_cons, trim_right_cons. intros H.
  apply orb_false_elim in H. destruct H as [H1 H2].
  rewrite H1. f_equal. now apply IH.
Qed.

Lemma TrimSpace_form s : starts_clean (TrimSpace s) /\ ends_clean (TrimSpace s).
Proof.
  unfold TrimSpace. split.
  - apply trim_right_starts, trim_left_clean.
  - apply trim_right_clean.
Qed.

Lemma TrimSpace_id s : starts_clean s -> ends_clean s -> TrimSpace s = s.
Proof.
  intros H1 H2. unfold TrimSpace. rewrite (trim_left_id _ H1).
  now apply trim_right_id.
Qed.

Lemma TrimSpace_split s :
  exists pre post, all_space pre = true /\ all_space post = true /\
                   s = (pre ++ TrimSpace s ++ post)%string.
Proof.
  destruct (trim_left_split s) as [pre [Hpre Hs]].
  destruct (trim_right_split (trim_left s)) as [post [Hpost Ht]].
  exists pre, post. repeat split; try assumption.
  unfold TrimSpace. now rewrite <- Ht.
Qed.

(** The first byte of a white space rune is an ASCII white space or one of
    the lead bytes C2, E1, E2, E3; its later bytes are none of these. *)
Lemma all_space_head b r :
  all_space (String b r) = true ->
  is_space b = true \/ byte b = 194%nat \/
  (225 <= byte b <= 227)%nat.
Proof.
  cbn [all_space]. intros Hyp.
  destruct (is_space b); [now left|]. right.
  destruct r as [|c r]; [discriminate|].
  destruct (is_space2 b c) eqn:E2.
  - left. unfold is_space2 in E2. apply andb_true_iff in E2.
    destruct E2 as [E2 _]. now apply Nat.eqb_eq in E2.
  - destruct r as [|d r]; [discriminate|].
    apply andb_true_iff in Hyp. destruct Hyp as [E3 _]. right.
    unfold is_space3 in E3.
    repeat (apply orb_true_iff in E3; destruct E3 as [E3|E3]);
      repeat (apply andb_true_iff in E3; destruct E3 as [E3 ?]);
      apply Nat.eqb_eq in E3; lia.
Qed.

Lemma is_space2_second a b :
  is_space2 a b = true -> byte b = 133%nat \/ byte b = 160%nat.
Proof.
  unfold is_space2. intros H. apply andb_true_iff in H. destruct H as [_ H].
  apply orb_true_iff in H. destruct H as [H|H]; apply Nat.eqb_eq in H; lia.
Qed.

Lemma is_space3_later a b c :
  is_space3 a b c = true ->
  (128 <= byte b <= 154)%nat /\ (128 <= byte c <= 175)%nat.
Proof.
  unfold is_space3. intros Hyp.
  repeat match goal with
         | H : (_ || _)%bool = true |- _ =>
             apply orb_true_iff in H; destruct H as [?|?]
         | H : (_ && _)%bool = true |- _ =>
             apply andb_true_iff in H; destruct H as [? ?]
         | H : (_ =? _)%nat = true |- _ => apply Nat.eqb_eq in H
         | H : (_ <=? _)%nat = true |- _ => apply Nat.leb_le in H
         end; lia.
Qed.

Lemma is_space_byte a : is_space a = true -> (byte a <= 32)%nat.
Proof.
  unfold is_space. intros Hyp.
  repeat match goal with
         | H : (_ || _)%bool = true |- _ =>
             apply orb_true_iff in H; destruct H as [?|?]
         | H : (_ && _)%bool = true |- _ =>
             apply andb_true_iff in H; destruct H as [? ?]
         | H : (_ =? _)%nat = true |- _ => apply Nat.eqb_eq in H
         | H : (_ <=? _)%nat = true |- _ => apply Nat.leb_le in H
         end; lia.
Qed.

Lemma append_nil_r (s : string) : (s ++ "")%string = s.
Proof. induction s as [|c s IH]; [reflexivity|]. cbn [append]. now rewrite IH. Qed.

(** White space that follows a string does not combine with its last
    bytes into a white space rune. *)
Lemma leading_space_before e post :
  e <> ""%string -> leading_space e = false -> all_space post = true ->
  leading_space (e ++ post) = false.
Proof.
  intros Hne He Hp. destruct e as [|a e]; [contradiction|].
  destruct post as [|p post]; [now rewrite append_nil_r|].
  pose proof (all_space_head _ _ Hp) as Hh.
  assert (Hp2 : forall x, is_space2 x p = false).
  { intros x. destruct (is_space2 x p) eqn:E; [|reflexivity].
    apply is_space2_second in E.
    destruct Hh as [Hh|Hh]; [apply is_space_byte in Hh|]; lia. }
  assert (Hp3 : forall x y, is_space3 x y p = false).
  { intros x y. destruct (is_space3 x y p) eqn:E; [|reflexivity].
    apply is_space3_later in E.
    destruct Hh as [Hh|Hh]; [apply is_space_byte in Hh|]; lia. }
  assert (Hp3' : forall x y, is_space3 x p y = false).
  { intros x y. destruct (is_space3 x p y) eqn:E; [|reflexivity].
    apply is_space3_later in E.
    destruct Hh as [Hh|Hh]; [apply is_space_byte in Hh|]; lia. }
  apply leading_space_false in He. destruct He as [E1 He].
  destruct e as [|b e].
  - cbn [append leading_space].
    destruct post as [|q post]; now rewrite E1, ?Hp2, ?Hp3'.
  - destruct He as [E2 He]. destruct e as [|c e].
    + cbn [append leading_space]. now rewrite E1, E2, Hp3.
    + cbn [append leading_space]. now rewrite E1, E2, He.
Qed.

Lemma all_space_app_inv x y :
  all_space (x ++ y) = true -> all_space y = true -> all_space x = true.
Proof.
  intros Hxy Hy. revert Hxy.
  induction x as [x E|a x E IH|a b x E1 E2 IH|a b c x E1 E2 E3 IH]
    using space_ind; intros Hxy.
  - destruct (string_dec x "") as [->|Hne]; [reflexivity|].
    pose proof (leading_space_before x y Hne E Hy) as Hl.
    pose proof (all_space_clean _ Hl Hxy) as Hnil.
    destruct x; [contradiction | discriminate].
  - cbn [append] in Hxy. rewrite all_space_1 in * by assumption. auto.
  - cbn [append] in Hxy. rewrite all_space_2 in * by assumption. auto.
  - cbn [append] in Hxy. rewrite all_space_3 in * by assumption. auto.
Qed.

Lemma trim_left_all_space pre t :
  all_space pre = true -> trim_left (pre ++ t) = trim_left t.
Proof.
  induction pre as [x E|a x E IH|a b x E1 E2 IH|a b c x E1 E2 E3 IH]
    using space_ind; intros Hp.
  - now rewrite (all_space_clean x E Hp).
  - cbn [append]. rewrite all_space_1 in Hp by assumption.
    rewrite trim_left_1 by assumption. auto.
  - cbn [append]. rewrite all_space_2 in Hp by assumption.
    rewrite trim_left_2 by assumption. auto.
  - cbn [append]. rewrite all_space_3 in Hp by assumption.
    rewrite trim_left_3 by assumption. auto.
Qed.

Lemma trim_left_space s : all_space s = true -> trim_left s = ""%string.
Proof.
  induction s as [x E|a x E IH|a b x E1 E2 IH|a b c x E1 E2 E3 IH]
    using space_ind; intros Hs.
  - now rewrite (all_space_clean x E Hs).
  - rewrite all_space_1 in Hs by assumption.
    rewrite trim_left_1 by assumption. auto.
  - rewrite all_space_2 in Hs by assumption.
    rewrite trim_left_2 by assumption. auto.
  - rewrite all_space_3 in Hs by assumption.
    rewrite trim_left_3 by assumption. auto.
Qed.

Lemma trim_right_all_space e post :
  ends_clean e -> all_space post = true -> trim_right (e ++ post) = e.
Proof.
  unfold ends_clean. intros He Hp. induction e as [|c e IH].
  - cbn [append]. destruct post as [|p post]; [reflexivity|].
    now rewrite trim_right_cons, Hp.
  - rewrite trailing_space_cons in He. apply orb_false_elim in He.
    destruct He as [H1 H2]. cbn [append]. rewrite trim_right_cons.
    destruct (all_space (String c (e ++ post))) eqn:E.
    + change (String c (e ++ post)) with (String c e ++ post)%string in E.
      now rewrite (all_space_app_inv _ _ E Hp) in H1.
    + f_equal. now apply IH.
Qed.

(** [TrimSpace] undoes a padding with white space. *)
Lemma TrimSpace_pad pre e post :
  all_space pre = true -> all_space post = true ->
  e = ""%string \/ entry_form e ->
  TrimSpace (pre ++ e ++ post) = e.
Proof.
  intros Hpre Hpost He. unfold TrimSpace.
  rewrite trim_left_all_space by exact Hpre.
  destruct He as [->|[Hne [Hs Hc]]].
  - cbn [append]. now rewrite trim_left_space.
  - rewrite trim_left_id.
    + now apply trim_right_all_space.
    + now apply leading_space_before.
Qed.

Lemma entries_filter (lines : list string) e :
  In e (filter (fun line => negb (String.eqb line "")) (map TrimSpace lines)) <->
  e <> ""%string /\ exists line, In line lines /\ e = TrimSpace line.
Proof.
  rewrite filter_In, in_map_iff, negb_true_iff, String.eqb_neq.
  split.
  - intros [[line [<- Hin]] Hne]. split; [exact Hne|]. now exists line.
  - intros [Hne [line [Hin ->]]]. split; [now exists line | exact Hne].
Qed.

Lemma ReadFileEntries_form fs path entries :
  ReadFileEntries fs path = inl entries ->
  forall e, In e entries -> entry_form e.
Proof.
  unfold ReadFileEntries.
  destruct (fs path) as [err|lines [err|]]; try discriminate.
  intros H. injection H as <-. intros e He.
  apply entries_filter in He. destruct He as [Hne [line [Hin ->]]].
  split; [exact Hne | apply TrimSpace_form].
Qed.

(** X1. The entries of [ReadFileEntries].  When it returns entries, a
    string is an entry exactly when it is not empty and is a line of the
    file with the white space of Unicode at its two ends removed; that is,
    exactly when it is not empty, neither starts nor ends with a white
    space rune, and some line of the file is that string between two
    stretches of white space.  There are at most as many entries as
    lines. *)
Theorem ReadFileEntries_entries fs path entries :
  ReadFileEntries fs path = inl entries ->
  exists lines,
    fs path = Scanned lines None /\
    (List.length entries <= List.length lines)%nat /\
    (forall e, In e entries <->
               e <> ""%string /\ exists line, In line lines /\ e = TrimSpace line) /\
    (forall e, In e entries <->
               entry_form e /\
               exists line pre post,
                 In line lines /\ all_space pre = true /\
                 all_space post = true /\ line = (pre ++ e ++ post)%string).
Proof.
  unfold ReadFileEntries.
  destruct (fs path) as [err|lines [err|]]; try discriminate.
  intros H. injection H as <-. exists lines.
  split; [reflexivity|]. split; [|split].
  - eapply Nat.le_trans; [apply filter_length_le|]. now rewrite length_map.
  - apply entries_filter.
  - intros e. rewrite entries_filter. split.
    + intros [Hne [line [Hin ->]]]. split.
      * split; [exact Hne|]. apply TrimSpace_form.
      * destruct (TrimSpace_split line) as [pre [post [Hp [Hq Hs]]]].
        now exists line, pre, post.
    + intros [Hf [line [pre [post [Hin [Hp [Hq ->]]]]]]].
      split; [apply Hf|]. exists (pre ++ e ++ post)%string.
      split; [exact Hin|]. symmetry. apply TrimSpace_pad; auto.
Qed.

Lemma ReadFileEntries_entries_witness :
  ReadFileEntries Examples.fs_padded "proxies.txt"
  = inl ["127.0.0.1:4145"; "10.0.0.1:9"]%string /\
  entry_form "10.0.0.1:9"%string.
Proof.
  assert (H : ReadFileEntries Examples.fs_padded "proxies.txt"
              = inl ["127.0.0.1:4145"; "10.0.0.1:9"]%string)
    by reflexivity.
  split; [exact H|].
  destruct (ReadFileEntries_entries _ _ _ H) as [lines [_ [_ [_ Hform]]]].
  apply (Hform "10.0.0.1:9"%string). simpl. tauto.
Defined.

Lemma filter_all_true {A} (f : A -> bool) l :
  (forall x, In x l -> f x = true) -> filter f l = l.
Proof.
  induction l as [|x t IH]; simpl; [trivial|]. intros H.
  rewrite (H x (or_introl eq_refl)). f_equal. apply IH.
  intros y Hy. apply H. now right.
Qed.

Lemma map_all_id {A} (f : A -> A) l :
  (forall x, In x l -> f x = x) -> map f l = l.
Proof.
  induction l as [|x t IH]; simpl; [trivial|]. intros H.
  rewrite (H x (or_introl eq_refl)). f_equal. apply IH.
  intros y Hy. apply H. now right.
Qed.

(** X2. Reading is idempotent: a file whose lines are the entries that
    [ReadFileEntries] returned for another file reads back as those same
    entries, in the same order. *)
Theorem ReadFileEntries_round_trip fs path entries fs' path' :
  ReadFileEntries fs path = inl entries ->
  fs' path' = Scanned entries None ->
  ReadFileEntries fs' path' = inl entries.
Proof.
  intros H H'.
  assert (Hform : forall e, In e entries -> entry_form e).
  { exact (ReadFileEntries_form fs path entries H). }
  unfold ReadFileEntries. rewrite H'. f_equal.
  rewrite map_all_id.
  - apply filter_all_true. intros e He.
    destruct (Hform e He) as [Hne _].
    apply negb_true_iff, String.eqb_neq, Hne.
  - intros e He. destruct (Hform e He) as [_ [H1 H2]].
    now apply TrimSpace_id.
Qed.

Lemma ReadFileEntries_round_trip_witness :
  ReadFileEntries Examples.fs_padded "proxies.txt"
  = inl ["127.0.0.1:4145"; "10.0.0.1:9"]%string /\
  ReadFileEntries
    (fun _ => Scanned ["127.0.0.1:4145"; "10.0.0.1:9"]%string None)
    "again.txt"
  = inl ["127.0.0.1:4145"; "10.0.0.1:9"]%string.
Proof.
  assert (H : ReadFileEntries Examples.fs_padded "proxies.txt"
              = inl ["127.0.0.1:4145"; "10.0.0.1:9"]%string)
    by reflexivity.
  split; [exact H|].
  exact (ReadFileEntries_round_trip _ _ _
           (fun _ => Scanned ["127.0.0.1:4145"; "10.0.0.1:9"]%string None)
           "again.txt"%string H eq_refl).
Defined.

End UtilFacts.

(** ** More on the rotator and the dial hook *)

Module RotationFacts.

Import GoInt GoIntFacts Slice SliceFacts Proxy RotatorFacts.

(** What the [i]-th call on a fresh rotator returns, below the wrap. *)
Lemma nth_call_below_wrap ps i :
  ps <> [] -> 1 <= i < 2 ^ 32 ->
  exists s, nth_error ps (Z.to_nat ((i - 1) mod len ps)) = Some s /\
            Next (after (Z.to_N (i - 1)) (NewProxyRotator ps))
            = (Returned s, after (Z.to_N i) (NewProxyRotator ps)).
Proof.
  intros Hne Hi.
  rewrite !after_fresh by (try assumption; lia).
  destruct (Next_below_wrap
              {| proxies := ps; current := Z.of_N (Z.to_N (i - 1)) |})
    as [s [Hn HN]]; simpl; try assumption; try lia.
  exists s. simpl in Hn, HN. rewrite Z2N.id in Hn by lia.
  split; [exact Hn|]. rewrite HN. do 2 f_equal. lia.
Qed.

Lemma Next_at_wrap p :
  current p = 2 ^ 32 - 1 -> 2 <= len (proxies p) ->
  Next p = (IndexOutOfRange (-1), {| proxies := proxies p; current := 0 |}).
Proof.
  intros Hc Hl. unfold Next.
  destruct (len (proxies p) =? 0) eqn:E; [apply Z.eqb_eq in E; lia|].
  rewrite Hc.
  change (AddUint32 (2 ^ 32 - 1) 1) with 0.
  change (int (int 0 - 1)) with (-1).
  assert (Hr : rem (-1) (len (proxies p)) = -1).
  { unfold rem. change (-1) with (- (1)). rewrite Z.rem_opp_l'.
    rewrite Z.rem_small by lia. reflexivity. }
  rewrite Hr. reflexivity.
Qed.

Lemma Next_single x c :
  fst (Next {| proxies := [x]; current := c |}) = Returned x.
Proof.
  unfold Next. cbn [proxies current].
  change (len [x]) with 1. change (1 =? 0) with false.
  cbv beta iota zeta. unfold rem. rewrite Z.rem_1_r. reflexivity.
Qed.

(** X3. When [Next] panics.  On a non-empty list and a counter within
    [uint32], a call stores the counter plus one modulo [2^32] and leaves the
    list alone; it returns an entry of the list unless the counter stood at
    [2^32 - 1] and the list has two entries or more, in which case the index
    is [-1] and the call panics.  Over a single proxy it returns that proxy
    at every counter value. *)
Theorem Next_panics_only_at_wrap p :
  proxies p <> [] -> 0 <= current p < 2 ^ 32 ->
  proxies (snd (Next p)) = proxies p /\
  current (snd (Next p)) = uint32 (current p + 1) /\
  ((exists i, fst (Next p) = IndexOutOfRange i) <->
   current p = 2 ^ 32 - 1 /\ 2 <= len (proxies p)) /\
  (current p = 2 ^ 32 - 1 -> 2 <= len (proxies p) ->
   fst (Next p) = IndexOutOfRange (-1)) /\
  (current p < 2 ^ 32 - 1 \/ len (proxies p) = 1 ->
   exists s, In s (proxies p) /\ fst (Next p) = Returned s).
Proof.
  intros Hne Hc.
  assert (Hlen : 0 < len (proxies p)) by now apply len_pos.
  assert (Hcur : current (snd (Next p)) = uint32 (current p + 1)).
  { unfold Next. destruct (len (proxies p) =? 0) eqn:E;
      [apply Z.eqb_eq in E; lia|].
    destruct (index _ _); reflexivity. }
  assert (Hok : current p < 2 ^ 32 - 1 \/ len (proxies p) = 1 ->
                exists s, In s (proxies p) /\ fst (Next p) = Returned s).
  { intros [Hlt|H1].
    - destruct (Next_below_wrap p Hne) as [s [Hn HN]]; [lia|].
      exists s. rewrite HN. split; [|reflexivity].
      eapply nth_error_In; eauto.
    - destruct p as [ps c]. simpl in *. destruct ps as [|x [|y t]].
      + contradiction.
      + exists x. split; [now left | apply Next_single].
      + unfold len in H1. simpl in H1. lia. }
  split; [apply Next_proxies|]. split; [exact Hcur|]. split; [|split].
  - split.
    + intros [i Hi].
      destruct (Z.eq_dec (len (proxies p)) 1) as [H1|H1].
      { destruct (Hok (or_intror H1)) as [s [_ Hs]]. congruence. }
      destruct (Z_lt_dec (current p) (2 ^ 32 - 1)) as [Hlt|Hge].
      { destruct (Hok (or_introl Hlt)) as [s [_ Hs]]. congruence. }
      lia.
    + intros [Hw H2]. exists (-1). now rewrite Next_at_wrap.
  - intros Hw H2. now rewrite Next_at_wrap.
  - exact Hok.
Qed.

Lemma Next_panics_only_at_wrap_witness :
  proxies {| proxies := ["a"; "b"; "c"]%string; current := 2 ^ 32 - 1 |} <> [] /\
  fst (Next {| proxies := ["a"; "b"; "c"]%string; current := 2 ^ 32 - 1 |})
  = IndexOutOfRange (-1) /\
  fst (Next {| proxies := ["a"]%string; current := 2 ^ 32 - 1 |})
  = Returned "a".
Proof.
  split; [discriminate|]. split.
  - apply (proj1 (proj2 (proj2 (proj2
      (Next_panics_only_at_wrap
         {| proxies := ["a"; "b"; "c"]%string; current := 2 ^ 32 - 1 |}
         ltac:(discriminate) ltac:(simpl; lia)))))); [reflexivity|].
    unfold len. simpl. lia.
  - reflexivity.
Defined.

Lemma mod_add_small k n m :
  0 < m -> 0 <= n < m ->
  (k + n) mod m
  = if k mod m + n <? m then k mod m + n else k mod m + n - m.
Proof.
  intros Hm Hn. rewrite <- Zplus_mod_idemp_l.
  pose proof (Z.mod_pos_bound k m Hm) as Hk.
  destruct (k mod m + n <? m) eqn:E.
  - apply Z.ltb_lt in E. apply Z.mod_small. lia.
  - apply Z.ltb_ge in E. symmetry.
    apply (Z.mod_unique _ _ 1); [left; lia | lia].
Qed.

(** The list read cyclically from position [r]. *)
Lemma nth_error_rotation {A} (l : list A) r n :
  (r < List.length l)%nat -> (n < List.length l)%nat ->
  nth_error (skipn r l ++ firstn r l) n
  = nth_error l (if (r + n <? List.length l)%nat then r + n
                 else r + n - List.length l)%nat.
Proof.
  intros Hr Hn. rewrite nth_error_app, length_skipn.
  destruct (n <? List.length l - r)%nat eqn:E.
  - apply Nat.ltb_lt in E. rewrite nth_error_skipn.
    replace (r + n <? List.length l)%nat with true
      by (symmetry; apply Nat.ltb_lt; lia).
    reflexivity.
  - apply Nat.ltb_ge in E. rewrite nth_error_firstn.
    replace (n - (List.length l - r) <? r)%nat with true
      by (symmetry; apply Nat.ltb_lt; lia).
    replace (r + n <? List.length l)%nat with false
      by (symmetry; apply Nat.ltb_ge; lia).
    f_equal. lia.
Qed.

Lemma window_calls ps k :
  ps <> [] -> 0 <= k -> k + len ps < 2 ^ 32 ->
  map (fun j => nth_call ps (k + 1 + Z.of_nat j)) (seq 0 (List.length ps))
  = map Returned (skipn (Z.to_nat (k mod len ps)) ps
                  ++ firstn (Z.to_nat (k mod len ps)) ps).
Proof.
  intros Hne Hk Hw.
  pose proof (len_pos _ Hne) as Hlen. unfold len in Hlen, Hw.
  pose proof (Z.mod_pos_bound k (len ps) ltac:(unfold len; lia)) as Hr.
  unfold len in Hr |- *.
  set (N := List.length ps) in *.
  set (r := Z.to_nat (k mod Z.of_nat N)).
  assert (HrN : (r < N)%nat) by (unfold r; lia).
  apply nth_error_ext. intros n.
  rewrite !nth_error_map, nth_error_seq.
  destruct (n <? N)%nat eqn:En.
  - apply Nat.ltb_lt in En. simpl.
    rewrite (nth_error_rotation ps r n HrN En).
    destruct (nth_call_below_wrap ps (k + 1 + Z.of_nat n) Hne) as [s [Hs HN]];
      [lia|].
    unfold nth_call. rewrite HN. simpl.
    replace (k + 1 + Z.of_nat n - 1) with (k + Z.of_nat n) in Hs by lia.
    unfold len in Hs. fold N in Hs.
    rewrite (mod_add_small k (Z.of_nat n) (Z.of_nat N)) in Hs by lia.
    fold N.
    destruct (k mod Z.of_nat N + Z.of_nat n <? Z.of_nat N) eqn:Ez.
    + apply Z.ltb_lt in Ez.
      replace (r + n <? N)%nat with true
        by (symmetry; apply Nat.ltb_lt; unfold r; lia).
      replace (r + n)%nat with (Z.to_nat (k mod Z.of_nat N + Z.of_nat n))
        by (unfold r; lia).
      now rewrite Hs.
    + apply Z.ltb_ge in Ez.
      replace (r + n <? N)%nat with false
        by (symmetry; apply Nat.ltb_ge; unfold r; lia).
      replace (r + n - N)%nat
        with (Z.to_nat (k mod Z.of_nat N + Z.of_nat n - Z.of_nat N))
        by (unfold r; lia).
      now rewrite Hs.
  - apply Nat.ltb_ge in En. simpl.
    symmetry.
    destruct (nth_error (skipn r ps ++ firstn r ps) n) eqn:Ex; [|reflexivity].
    exfalso.
    assert (Hl : (n < List.length (skipn r ps ++ firstn r ps))%nat).
    { apply nth_error_Some. congruence. }
    rewrite length_app, length_skipn, length_firstn in Hl. fold N in Hl. lia.
Qed.

(** X4. Every proxy once per round.  Below the wrap of the counter, any [N]
    consecutive calls on a rotator over [N] proxies return the list read
    cyclically from where the counter stands, that is, every entry of the
    list exactly once. *)
Theorem Next_window_uses_each_proxy_once ps k :
  ps <> [] -> 0 <= k -> k + len ps < 2 ^ 32 ->
  exists round,
    map (fun j => nth_call ps (k + 1 + Z.of_nat j)) (seq 0 (List.length ps))
    = map Returned round /\
    round = skipn (Z.to_nat (k mod len ps)) ps
            ++ firstn (Z.to_nat (k mod len ps)) ps /\
    Permutation round ps.
Proof.
  intros Hne Hk Hw. eexists. split; [apply window_calls; assumption|].
  split; [reflexivity|].
  eapply perm_trans; [apply Permutation_app_comm|].
  rewrite firstn_skipn. apply Permutation_refl.
Qed.

Lemma Next_window_uses_each_proxy_once_witness :
  0 <= 4 /\ 4 + len ["a"; "b"; "c"]%string < 2 ^ 32 /\
  map (fun j => nth_call ["a"; "b"; "c"]%string (4 + 1 + Z.of_nat j))
      (seq 0 3)
  = [Returned "b"; Returned "c"; Returned "a"].
Proof.
  split; [lia|]. split; [unfold len; simpl; lia|].
  destruct (Next_window_uses_each_proxy_once ["a"; "b"; "c"]%string 4)
    as [round [Hcalls [Hround _]]];
    [discriminate | lia | unfold len; simpl; lia |].
  reflexivity.
Defined.

(** X5. The dial hook turns with the rotator.  Over a non-empty list
    without empty entries, the [i]-th dial of the proxied client, for
    [1 <= i < 2^32], goes through SOCKS5 to [list[(i-1) mod N]] and moves
    the rotator by exactly one call. *)
Theorem dial_rotates ps addr i :
  ps <> [] -> (forall s, In s ps -> s <> ""%string) -> 1 <= i < 2 ^ 32 ->
  exists s,
    nth_error ps (Z.to_nat ((i - 1) mod len ps)) = Some s /\
    dial GetClient addr (after (Z.to_N (i - 1)) (NewProxyRotator ps))
    = (ViaSocks5 ("socks5://" ++ s) addr,
       after (Z.to_N i) (NewProxyRotator ps)).
Proof.
  intros Hne Hnon Hi.
  destruct (nth_call_below_wrap ps i Hne Hi) as [s [Hs HN]].
  exists s. split; [exact Hs|].
  unfold dial, GetClient, rotatorDial. simpl. rewrite HN.
  assert (Hsne : s <> ""%string) by (apply Hnon; eapply nth_error_In; eauto).
  apply String.eqb_neq in Hsne. now rewrite Hsne.
Qed.

Lemma dial_rotates_witness :
  1 <= 3 < 2 ^ 32 /\
  fst (dial GetClient "localhost:8080"
         (after (Z.to_N (3 - 1)) (NewProxyRotator ["p1:1080"; "p2:1080"]%string)))
  = ViaSocks5 "socks5://p1:1080" "localhost:8080".
Proof.
  split; [lia|].
  destruct (dial_rotates ["p1:1080"; "p2:1080"]%string "localhost:8080"%string 3)
    as [s [Hs Hd]]; [discriminate | | lia |].
  - simpl. intros s [<-|[<-|[]]]; discriminate.
  - reflexivity.
Defined.

End RotationFacts.

(** ** More on [ValidateProxies] and on what [main] dials through *)

Module PipelineFacts.

Import Slice SliceFacts Proxy RotatorFacts ValidatorFacts Main Invariants.

Lemma Permutation_filter_same {A} (f : A -> bool) l l' :
  Permutation l l' -> Permutation (filter f l) (filter f l').
Proof.
  induction 1 as [|x l l' _ IH|x y l|l l' l'' _ IH1 _ IH2]; simpl.
  - apply Permutation_refl.
  - destruct (f x); [apply perm_skip|]; exact IH.
  - destruct (f x), (f y); try apply Permutation_refl. apply perm_swap.
  - eapply perm_trans; eauto.
Qed.

Lemma filter_verdicts (net_ok : string -> bool) (keep : bool -> bool)
      (log : list (string * bool)) :
  (forall x, In x log -> snd x = net_ok (fst x)) ->
  map fst (filter (fun x => keep (snd x)) log)
  = filter (fun p => keep (net_ok p)) (map fst log).
Proof.
  induction log as [|[p b] t IH]; simpl; [trivial|]. intros H.
  pose proof (H (p, b) (or_introl eq_refl)) as Hb. simpl in Hb. subst b.
  destruct (keep (net_ok p)); simpl; rewrite IH; auto.
Qed.

Lemma validated_on_network net_ok ps sched valid invalid :
  ValidateProxies ps sched = Some (valid, invalid) ->
  (forall x, In x (probe_log ps sched) -> snd x = net_ok (fst x)) ->
  Permutation valid (filter net_ok ps) /\
  Permutation invalid (filter (fun p => negb (net_ok p)) ps).
Proof.
  intros H Hnet.
  destruct (ValidateProxies_inv _ _ _ _ H) as [s [Hrun [Hp [Hv [Hi Hinv]]]]].
  assert (Hlog : probe_log ps sched = probes s).
  { unfold probe_log. now rewrite Hrun. }
  rewrite Hlog in Hnet.
  destruct Hinv as [Hperm _ Hva Hin]. rewrite Hp in Hperm. simpl in Hperm.
  rewrite <- Hv, <- Hi, Hva, Hin. split.
  - rewrite (filter_verdicts net_ok (fun b => b)) by assumption.
    now apply Permutation_filter_same.
  - unfold failed.
    rewrite (filter_verdicts net_ok negb) by assumption.
    now apply Permutation_filter_same.
Qed.

Lemma complete_schedule_runs ps : forall sched sched0 s,
  vinv ps sched0 s ->
  complete_schedule (List.length (pending s)) sched = true ->
  exists s', vrun (List.length ps) sched s = Some s' /\ pending s' = [].
Proof.
  induction sched as [|[i e] rest IH]; intros sched0 s Hinv Hc.
  - exists s. split; [reflexivity|].
    destruct (pending s); [reflexivity | discriminate].
  - cbn [complete_schedule] in Hc.
    destruct (List.length (pending s)) as [|n] eqn:En; [discriminate|].
    apply andb_true_iff in Hc. destruct Hc as [Hi Hc].
    apply Nat.ltb_lt in Hi.
    destruct (vstep_progress ps sched0 s i e Hinv) as [s1 H1]; [lia|].
    pose proof (vstep_inv _ _ _ _ _ _ _ Hinv H1) as Hinv1.
    destruct (vinv_lengths _ _ _ Hinv) as [L _].
    destruct (vinv_lengths _ _ _ Hinv1) as [L1 _].
    rewrite length_app in L1. simpl in L1.
    destruct (IH _ s1 Hinv1) as [s' [Hr Hp]].
    { replace (List.length (pending s1)) with n by lia. exact Hc. }
    exists s'. split; [|exact Hp]. cbn [vrun]. now rewrite H1.
Qed.

Lemma runs_complete_schedule cap : forall sched s s',
  vrun cap sched s = Some s' -> pending s' = [] ->
  complete_schedule (List.length (pending s)) sched = true.
Proof.
  induction sched as [|[i e] rest IH]; intros s s' Hr Hp.
  - injection Hr as <-. now rewrite Hp.
  - cbn [vrun] in Hr. destruct (vstep cap i e s) as [s1|] eqn:E1;
      [|discriminate].
    specialize (IH _ _ Hr Hp).
    unfold vstep in E1.
    destruct (nth_error (pending s) i) as [proxy|] eqn:En; [|discriminate].
    pose proof (length_remove_at _ _ _ En) as HL.
    assert (Hi : (i < List.length (pending s))%nat).
    { apply nth_error_Some. now rewrite En. }
    assert (H1 : pending s1 = remove_at i (pending s)).
    { destruct (testProxy e);
        [destruct (List.length (validProxies s) <? cap)%nat
        |destruct (List.length (invalidProxies s) <? cap)%nat];
        try discriminate; now injection E1 as <-. }
    rewrite H1 in IH. rewrite <- HL in *. cbn [complete_schedule].
    rewrite IH, andb_true_r. now apply Nat.ltb_lt.
Qed.

(** X6. The schedule does not matter.  [ValidateProxies] returns exactly
    along the schedules that let every goroutine finish, whichever pending
    goroutine finishes at each step: no order of completion blocks it.  On
    a network that answers the probe of each address by [net_ok], along
    every such schedule, [valid] is a permutation of the addresses of the
    input that answer and [invalid] of those that do not; an address is in
    [valid] exactly when it is in the input and answers. *)
Theorem ValidateProxies_any_schedule net_ok ps sched :
  ((exists r, ValidateProxies ps sched = Some r) <->
   complete_schedule (List.length ps) sched = true) /\
  (complete_schedule (List.length ps) sched = true ->
   (forall x, In x (probe_log ps sched) -> snd x = net_ok (fst x)) ->
   exists valid invalid,
     ValidateProxies ps sched = Some (valid, invalid) /\
     Permutation valid (filter net_ok ps) /\
     Permutation invalid (filter (fun p => negb (net_ok p)) ps) /\
     (forall a, In a valid <-> In a ps /\ net_ok a = true) /\
     (forall a, In a invalid <-> In a ps /\ net_ok a = false)).
Proof.
  assert (Hret : complete_schedule (List.length ps) sched = true ->
                 exists valid invalid,
                   ValidateProxies ps sched = Some (valid, invalid)).
  { intros Hc.
    destruct (complete_schedule_runs ps sched [] (vinit ps) (vinv_init ps) Hc)
      as [s' [Hr Hp]].
    exists (validProxies s'), (invalidProxies s').
    unfold ValidateProxies. now rewrite Hr, Hp. }
  split; [split|].
  - intros [[valid invalid] H].
    destruct (ValidateProxies_inv _ _ _ _ H) as [s [Hrun [Hp _]]].
    exact (runs_complete_schedule _ _ _ _ Hrun Hp).
  - intros Hc. destruct (Hret Hc) as [valid [invalid H]].
    now exists (valid, invalid).
  - intros Hc Hnet. destruct (Hret Hc) as [valid [invalid H]].
    exists valid, invalid. split; [exact H|].
    destruct (validated_on_network _ _ _ _ _ H Hnet) as [Hv Hi].
    split; [exact Hv|]. split; [exact Hi|]. split; intros a.
    + rewrite <- filter_In. split; apply Permutation_in;
        [exact Hv | apply Permutation_sym, Hv].
    + rewrite <- (negb_true_iff (net_ok a)).
      rewrite <- (filter_In (fun p => negb (net_ok p))).
      split; apply Permutation_in; [exact Hi | apply Permutation_sym, Hi].
Qed.

Lemma ValidateProxies_any_schedule_witness :
  complete_schedule 3
    [(2%nat, None); (0%nat, Some "refused"%string); (0%nat, None)] = true /\
  exists valid invalid,
    ValidateProxies ["p1"; "p2"; "p3"]%string
      [(2%nat, None); (0%nat, Some "refused"%string); (0%nat, None)]
    = Some (valid, invalid) /\
    Permutation valid
      (filter (fun p => negb (String.eqb p "p1")) ["p1"; "p2"; "p3"]%string).
Proof.
  split; [reflexivity|].
  destruct (proj2 (ValidateProxies_any_schedule
                     (fun p => negb (String.eqb p "p1"))
                     ["p1"; "p2"; "p3"]%string
                     [(2%nat, None); (0%nat, Some "refused"%string);
                      (0%nat, None)]) eq_refl)
    as [valid [invalid [H [Hv _]]]].
  - intros x Hx. vm_compute in Hx.
    destruct Hx as [<-|[<-|[<-|[]]]]; reflexivity.
  - now exists valid, invalid.
Defined.

Lemma validation_on_In net_ok validated ps a :
  validation_on net_ok validated ->
  In a (validated ps) -> In a ps /\ net_ok a = true.
Proof.
  intros Hv Hin. destruct (Hv ps) as [sched [invalid [H Hnet]]].
  destruct (validated_on_network _ _ _ _ _ H Hnet) as [Hp _].
  apply (Permutation_in a Hp) in Hin. now apply filter_In in Hin.
Qed.

(** X7. What [main] dials through.  When [main] starts a run with a proxy
    list, on a network that answers probes by [net_ok], every dial of its
    client either fails with "proxy address is empty" (no proxy was valid),
    or panics (the counter wrapped), or goes through SOCKS5 to an address
    that is an entry of the proxy file, is not empty, carries no white
    space at its ends and answered its probe; it is never direct. *)
Theorem main_dials_validated_entries env f rt net_ok k addr :
  validation_on net_ok (validated env) ->
  main_startup env f = Dispatching rt ->
  proxyList f <> ""%string ->
  exists entries,
    Util.ReadFileEntries (fs env) (proxyList f) = inl entries /\
    (forall s, In s (proxies (rt_rotator rt)) ->
               In s entries /\ net_ok s = true /\ entry_form s) /\
    match fst (dial (rt_client rt) addr (after k (rt_rotator rt))) with
    | DialError msg =>
        msg = "proxy address is empty"%string /\ proxies (rt_rotator rt) = []
    | ViaSocks5 url a =>
        a = addr /\
        exists s, url = ("socks5://" ++ s)%string /\ In s entries /\
                  net_ok s = true /\ entry_form s
    | DialPanic _ => True
    | Direct _ => False
    end.
Proof.
  intros Hv H Hp. apply String.eqb_neq in Hp.
  unfold main_startup in H. rewrite Hp in H.
  destruct (Util.ReadFileEntries (fs env) (proxyList f)) as [entries|e] eqn:Er.
  2:{ StartupFacts.startup_cases H. }
  assert (Hrt : rt_client rt = GetClient /\
                rt_rotator rt = NewProxyRotator (validated env entries)).
  { StartupFacts.startup_cases H; injection H as <-; split; reflexivity. }
  destruct Hrt as [Hc Hr]. exists entries. split; [reflexivity|].
  assert (Hin : forall s, In s (proxies (rt_rotator rt)) ->
                          In s entries /\ net_ok s = true /\ entry_form s).
  { rewrite Hr. simpl. intros s Hs.
    destruct (validation_on_In _ _ _ _ Hv Hs) as [He Hn].
    repeat split; try assumption;
      apply (UtilFacts.ReadFileEntries_form _ _ _ Er s He). }
  split; [exact Hin|].
  rewrite Hc. unfold dial, GetClient, rotatorDial. simpl.
  destruct (Next (after k (rt_rotator rt))) as [[s|i] p'] eqn:EN; [|exact I].
  destruct (String.eqb s "") eqn:Es; simpl.
  - apply String.eqb_eq in Es. subst s. split; [reflexivity|].
    destruct (proxies (rt_rotator rt)) as [|x t] eqn:Ep; [reflexivity|].
    exfalso.
    assert (HIn : In ""%string (proxies (after k (rt_rotator rt)))).
    { apply Next_Returned_In; [now rewrite EN|].
      rewrite after_proxies, Ep. discriminate. }
    rewrite after_proxies, Ep in HIn.
    destruct (Hin _ HIn) as [_ [_ [Hne _]]]. now apply Hne.
  - split; [reflexivity|]. exists s. split; [reflexivity|].
    apply Hin. rewrite <- (after_proxies k).
    apply Next_Returned_In; [now rewrite EN|].
    intros Hnil. rewrite (Next_empty _ Hnil) in EN.
    injection EN as <- _. discriminate.
Qed.

Lemma vrun_in_order_log net_ok cap : forall ps v iv lg,
  (List.length v + List.length ps <= cap)%nat ->
  (List.length iv + List.length ps <= cap)%nat ->
  vrun cap (in_order net_ok ps) (mkV ps v iv lg)
  = Some (mkV [] (v ++ filter net_ok ps)
              (iv ++ filter (fun p => negb (net_ok p)) ps)
              (lg ++ map (fun p => (p, net_ok p)) ps)).
Proof.
  induction ps as [|p t IH]; intros v iv lg Hv Hiv; simpl.
  - now rewrite !app_nil_r.
  - simpl in Hv, Hiv. unfold vstep. simpl.
    destruct (net_ok p) eqn:En; simpl.
    + replace (List.length v <? cap)%nat with true
        by (symmetry; apply Nat.ltb_lt; lia).
      rewrite IH by (rewrite ?length_app; simpl; lia).
      now rewrite <- !app_assoc.
    + replace (List.length iv <? cap)%nat with true
        by (symmetry; apply Nat.ltb_lt; lia).
      rewrite IH by (rewrite ?length_app; simpl; lia).
      now rewrite <- !app_assoc.
Qed.

(** On every network the probes can resolve, in input order for one. *)
Lemma validation_on_filter net_ok : validation_on net_ok (filter net_ok).
Proof.
  intros ps. exists (in_order net_ok ps), (filter (fun p => negb (net_ok p)) ps).
  pose proof (vrun_in_order_log net_ok (List.length ps) ps [] [] []) as H.
  simpl in H. specialize (H (Nat.le_refl _) (Nat.le_refl _)).
  unfold ValidateProxies, probe_log, vinit. rewrite H. simpl.
  split; [reflexivity|].
  intros x Hx. apply in_map_iff in Hx. destruct Hx as [p [<- _]]. reflexivity.
Qed.

Lemma main_dials_validated_entries_witness :
  validation_on Examples.net_local (validated Examples.env_local) /\
  proxyList Examples.flags_proxied <> ""%string /\
  exists rt,
    main_startup Examples.env_local Examples.flags_proxied = Dispatching rt /\
    fst (dial (rt_client rt) "localhost:8080" (after 2 (rt_rotator rt)))
    = ViaSocks5 "socks5://127.0.0.1:4145" "localhost:8080".
Proof.
  assert (Hv : validation_on Examples.net_local (validated Examples.env_local))
    by apply validation_on_filter.
  split; [exact Hv|]. split; [discriminate|].
  eexists. split; [reflexivity|].
  destruct (main_dials_validated_entries
              Examples.env_local Examples.flags_proxied _
              Examples.net_local 2%N "localhost:8080"%string Hv eq_refl)
    as [entries [_ [_ Hd]]]; [discriminate|].
  reflexivity.
Defined.

End PipelineFacts.

(** ** More on start-up and on the requests of a run *)

Module RequestFacts.

Import GoInt Slice SliceFacts Proxy Main Invariants.

Lemma startup_user_agents env f rt :
  main_startup env f = Dispatching rt ->
  forall ua, In ua (rt_userAgentList rt) -> entry_form ua.
Proof.
  intros H. unfold main_startup in H.
  destruct (printVersion f); [discriminate|].
  destruct (ParseLevel env (logLevel f)); [discriminate|].
  destruct (String.eqb (userAgentsListFile f) "") eqn:Eu.
  - assert (Hl : rt_userAgentList rt = []).
    { StartupFacts.startup_cases H; injection H as <-; reflexivity. }
    rewrite Hl. intros ua [].
  - destruct (Util.ReadFileEntries (fs env) (userAgentsListFile f))
      as [uas|e] eqn:Er; [|discriminate].
    assert (Hl : rt_userAgentList rt = uas).
    { StartupFacts.startup_cases H; injection H as <-; reflexivity. }
    rewrite Hl. exact (UtilFacts.ReadFileEntries_form _ _ _ Er).
Qed.

Lemma startup_checked env f rt :
  main_startup env f = Dispatching rt ->
  targetURL f <> ""%string /\ rt_method rt = ToUpper env (method f) /\
  Contains allowedHTTPMethods (rt_method rt) = true.
Proof.
  intros H. StartupFacts.startup_cases H; injection H as <-; simpl;
    repeat match goal with
           | E : String.eqb _ _ = false |- _ => apply String.eqb_neq in E
           | E : negb _ = false |- _ => apply negb_false_iff in E
           end;
    repeat split; assumption.
Qed.

(** X8. A started run.  When [main] reaches the dispatch loop, the version
    was not asked for, the log level and the target URL parse, the URL is
    not empty, the delay is not negative, the stored method is the
    upper-cased flag and is allowed, the capacity is [*maxGoroutines >= 1],
    there is a limiter exactly when the delay is not zero (and then it is
    positive), the client is the direct one exactly when no proxy list was
    given, and the user agents are entries of their file.  Conversely,
    flags that pass these checks start a run whenever the files that are
    named can be read. *)
Theorem started_run env f :
  (forall rt, main_startup env f = Dispatching rt ->
     printVersion f = false /\
     ParseLevel env (logLevel f) = None /\
     url_Parse env (targetURL f) = None /\
     targetURL f <> ""%string /\
     0 <= delayBetweenRequests f /\
     rt_method rt = ToUpper env (method f) /\
     Contains allowedHTTPMethods (rt_method rt) = true /\
     rt_capacity rt = maxGoroutines f /\ 1 <= rt_capacity rt /\
     rt_limiter rt = (if delayBetweenRequests f =? 0 then None
                      else Some (delayBetweenRequests f)) /\
     (forall d, rt_limiter rt = Some d -> 0 < d) /\
     (proxyList f = ""%string <-> rt_client rt = directClient) /\
     (proxyList f <> ""%string <-> rt_client rt = GetClient) /\
     (forall ua, In ua (rt_userAgentList rt) -> entry_form ua)) /\
  (printVersion f = false ->
   ParseLevel env (logLevel f) = None ->
   url_Parse env (targetURL f) = None ->
   targetURL f <> ""%string ->
   0 <= delayBetweenRequests f ->
   1 <= maxGoroutines f ->
   Contains allowedHTTPMethods (ToUpper env (method f)) = true ->
   (userAgentsListFile f = ""%string \/
    exists uas, Util.ReadFileEntries (fs env) (userAgentsListFile f) = inl uas) ->
   (proxyList f = ""%string \/
    exists ps, Util.ReadFileEntries (fs env) (proxyList f) = inl ps) ->
   exists rt, main_startup env f = Dispatching rt).
Proof.
  split.
  - intros rt H.
    pose proof (startup_user_agents _ _ _ H) as Hua.
    assert (Hc : (proxyList f = ""%string <-> rt_client rt = directClient) /\
                 (proxyList f <> ""%string <-> rt_client rt = GetClient)).
    { unfold main_startup in H.
      destruct (String.eqb (proxyList f) "") eqn:Ep.
      - apply String.eqb_eq in Ep.
        assert (Hd : rt_client rt = directClient)
          by (StartupFacts.startup_cases H; injection H as <-; reflexivity).
        split; split; intros Hx; try assumption; try congruence.
        exfalso. rewrite Hd in Hx. discriminate Hx.
      - apply String.eqb_neq in Ep.
        destruct (Util.ReadFileEntries (fs env) (proxyList f)) as [ps|e];
          [|StartupFacts.startup_cases H].
        assert (Hg : rt_client rt = GetClient)
          by (StartupFacts.startup_cases H; injection H as <-; reflexivity).
        split; split; intros Hx; try assumption; try congruence.
        exfalso. rewrite Hg in Hx. discriminate Hx. }
    destruct Hc as [Hc1 Hc2].
    StartupFacts.startup_cases H; injection H as <-; simpl in *;
      repeat match goal with
             | E : String.eqb _ _ = false |- _ => apply String.eqb_neq in E
             | E : String.eqb _ _ = true |- _ => apply String.eqb_eq in E
             | E : (_ <? _) = false |- _ => apply Z.ltb_ge in E
             | E : (_ =? _) = false |- _ => apply Z.eqb_neq in E
             | E : (_ =? _) = true |- _ => apply Z.eqb_eq in E
             | E : negb _ = false |- _ => apply negb_false_iff in E
             end;
      repeat split; try assumption; try reflexivity; try lia;
      try (apply Hc1); try (apply Hc2);
      try (intros d Hd; try discriminate; injection Hd as <-; lia);
      try (match goal with
           | Hx : In ?u _ |- _ => destruct (Hua u Hx) as [? [? ?]]; assumption
           end).
  - intros Hv Hl Hu Ht Hd Hm Hc Hua Hp.
    apply String.eqb_neq in Ht.
    assert (Hd' : (delayBetweenRequests f <? 0) = false) by (apply Z.ltb_ge; lia).
    assert (Hm' : (maxGoroutines f <? 1) = false) by (apply Z.ltb_ge; lia).
    unfold main_startup. rewrite Hv, Hl, Hu, Ht, Hd', Hm', Hc. simpl.
    destruct Hua as [Hua|[uas Hua]], Hp as [Hp|[ps Hp]];
      rewrite ?Hua, ?Hp; simpl;
      destruct (String.eqb (userAgentsListFile f) "");
      destruct (String.eqb (proxyList f) "");
      rewrite ?Hua, ?Hp; eexists; reflexivity.
Qed.

Lemma started_run_witness :
  exists rt,
    main_startup Examples.env_local Examples.flags_proxied = Dispatching rt /\
    rt_method rt = "GET"%string /\ rt_capacity rt = 10 /\
    rt_limiter rt = None.
Proof.
  destruct (proj2 (started_run Examples.env_local Examples.flags_proxied))
    as [rt Hrt]; try reflexivity; try discriminate; try (simpl; lia).
  - left. reflexivity.
  - right. eexists. reflexivity.
  - exists rt. split; [exact Hrt|].
    destruct (proj1 (started_run Examples.env_local Examples.flags_proxied)
                rt Hrt)
      as [_ [_ [_ [_ [_ [Hm [_ [Hc [_ [Hl _]]]]]]]]]].
    rewrite Hm, Hc, Hl. repeat split.
Defined.

Lemma Intn_range draw n :
  0 < n -> exists k, Intn draw n = Some k /\ 0 <= k < n.
Proof.
  intros Hn. unfold Intn.
  replace (n <=? 0) with false by (symmetry; apply Z.leb_gt; lia).
  eexists. split; [reflexivity|]. apply Z.mod_pos_bound. exact Hn.
Qed.

Lemma buildRequest_total f method' uas draw :
  exists req,
    buildRequest f method' uas draw = Some req /\
    requestURI req = targetURL f /\ reqMethod req = method' /\
    (uas <> [] -> exists ua, In ua uas /\ reqUserAgent req = Some ua) /\
    (uas = [] -> reqUserAgent req
                 = if String.eqb (userAgent f) "" then None
                   else Some (userAgent f)).
Proof.
  unfold buildRequest. destruct (len uas >? 0) eqn:El.
  - assert (Hl : 0 < len uas) by (apply Z.gtb_lt in El; lia).
    destruct (Intn_range draw (len uas) Hl) as [k [Hk Hr]]. rewrite Hk.
    destruct (index_in_range uas k Hr) as [ua [Hi Hn]]. rewrite Hi.
    eexists. split; [reflexivity|]. simpl. repeat split.
    + intros _. exists ua. split; [|reflexivity]. eapply nth_error_In; eauto.
    + intros ->. unfold len in Hl. simpl in Hl. lia.
  - assert (Hnil : uas = []).
    { destruct uas; [reflexivity|]. exfalso.
      assert (0 < len (s :: uas)) by (unfold len; simpl; lia).
      apply Z.gtb_lt in H. congruence. }
    destruct (String.eqb (userAgent f) "") eqn:Eu; simpl;
      eexists; (split; [reflexivity|]); simpl; repeat split;
      try (intros Hne; contradiction); reflexivity.
Qed.

(** X9. The request of a sender.  Building the request never panics,
    whatever the generator draws: with a non-empty user agent list the
    user agent is an entry of the list, with an empty one it is the
    [-user_agent] flag, or unset when that is empty.  In a run that [main]
    started, every request carries the non-empty target URL, an allowed
    method, and never an empty user agent. *)
Theorem request_of_sender :
  (forall f method' uas draw,
     exists req,
       buildRequest f method' uas draw = Some req /\
       requestURI req = targetURL f /\ reqMethod req = method' /\
       (uas <> [] -> exists ua, In ua uas /\ reqUserAgent req = Some ua) /\
       (uas = [] -> reqUserAgent req
                    = if String.eqb (userAgent f) "" then None
                      else Some (userAgent f))) /\
  (forall env f rt draw,
     main_startup env f = Dispatching rt ->
     exists req,
       buildRequest f (rt_method rt) (rt_userAgentList rt) draw = Some req /\
       requestURI req <> ""%string /\
       Contains allowedHTTPMethods (reqMethod req) = true /\
       reqUserAgent req <> Some ""%string).
Proof.
  split; [exact buildRequest_total|].
  intros env f rt draw H.
  destruct (buildRequest_total f (rt_method rt) (rt_userAgentList rt) draw)
    as [req [Hb [Hu [Hm [Hne Hnil]]]]].
  destruct (startup_checked _ _ _ H) as [Ht [_ Hc]].
  exists req. split; [exact Hb|]. rewrite Hu, Hm.
  split; [exact Ht|]. split; [exact Hc|].
  destruct (rt_userAgentList rt) as [|x t] eqn:El.
  - rewrite (Hnil eq_refl).
    destruct (String.eqb (userAgent f) "") eqn:Eu; [discriminate|].
    apply String.eqb_neq in Eu. congruence.
  - destruct (Hne ltac:(discriminate)) as [ua [Hin ->]].
    rewrite <- El in Hin.
    destruct (startup_user_agents _ _ _ H ua Hin) as [Hua _]. congruence.
Qed.

Lemma request_of_sender_witness :
  exists req,
    buildRequest Examples.flags_proxied "GET" ["ua-1"; "ua-2"; "ua-3"]%string 7
    = Some req /\
    reqUserAgent req = Some "ua-2"%string /\
    ["ua-1"; "ua-2"; "ua-3"]%string <> [].
Proof.
  destruct (proj1 request_of_sender Examples.flags_proxied "GET"%string
              ["ua-1"; "ua-2"; "ua-3"]%string 7)
    as [req [Hb [_ [_ [Hne _]]]]].
  exists req. split; [exact Hb|].
  split; [|discriminate].
  vm_compute in Hb. injection Hb as <-. reflexivity.
Defined.

(** *** The average of the template copy of [main] *)

(** X10. The average of the template copy.  That copy divides the sent
    count by the cumulative duration, as integers, truncating towards
    zero: it panics with a division by zero exactly when requests were sent
    and the cumulative duration is 0 nanoseconds; it reports 0 when no
    request was sent, and when the magnitude of the cumulative duration
    exceeds the number of requests sent; a whole number between 1 and the
    sent count when the duration is positive and at most the sent count;
    and a negative whole number, between minus the sent count and -1, when
    the cumulative duration has wrapped to a negative value of magnitude at
    most the sent count. *)
Theorem template_average sent total :
  (TemplateMain.avgDuration sent total = None <-> 0 < sent /\ total = 0) /\
  (sent <= 0 -> TemplateMain.avgDuration sent total = Some 0%float) /\
  (0 < sent <= max_int64 -> total <> 0 ->
   TemplateMain.avgDuration sent total = Some (float64 (Z.quot sent total))) /\
  (0 < sent < Z.abs total ->
   TemplateMain.avgDuration sent total = Some 0%float) /\
  (0 < total <= sent -> 1 <= Z.quot sent total <= sent) /\
  (0 < - total <= sent -> - sent <= Z.quot sent total <= -1).
Proof.
  assert (Hpos : forall t, 0 < t <= sent -> 1 <= Z.quot sent t <= sent).
  { intros t Ht. split.
    - apply Z.quot_le_lower_bound; lia.
    - apply Z.quot_le_upper_bound; nia. }
  assert (Hsmall : forall t, 0 < sent < t -> Z.quot sent t = 0).
  { intros t Ht. apply Z.quot_small. lia. }
  assert (Hneg : forall t, Z.quot sent t = - Z.quot sent (- t)).
  { intros t. destruct (Z.eq_dec t 0) as [->|Ht]; [now destruct sent|].
    rewrite Z.quot_opp_r by exact Ht. lia. }
  unfold TemplateMain.avgDuration, TemplateMain.quo.
  split; [|split; [|split; [|split; [|split]]]].
  - destruct (sent >? 0) eqn:Es.
    + destruct (total =? 0) eqn:Et.
      * split; [intros _|reflexivity]. split; [lia|]. now apply Z.eqb_eq.
      * split; [discriminate|]. intros [_ Hz]. apply Z.eqb_neq in Et. contradiction.
    + split; [discriminate|]. intros [Hs _]. lia.
  - intros Hs. now replace (sent >? 0) with false by (symmetry; lia).
  - intros Hs Ht. replace (sent >? 0) with true by (symmetry; lia).
    replace (total =? 0) with false by (symmetry; apply Z.eqb_neq; lia).
    rewrite GoIntFacts.int64_id; [reflexivity|].
    unfold in_int64, min_int64, max_int64 in *.
    destruct (Z.lt_trichotomy total 0) as [Hn|[Hz|Hp]]; [|lia|].
    + rewrite (Hneg total).
      destruct (Z_le_gt_dec (- total) sent) as [Hle|Hgt].
      * pose proof (Hpos (- total)). lia.
      * rewrite (Hsmall (- total)) by lia. lia.
    + destruct (Z_le_gt_dec total sent) as [Hle|Hgt].
      * pose proof (Hpos total). lia.
      * rewrite (Hsmall total) by lia. lia.
  - intros Hs. replace (sent >? 0) with true by (symmetry; lia).
    replace (total =? 0) with false by (symmetry; apply Z.eqb_neq; lia).
    destruct (Z.lt_trichotomy total 0) as [Hn|[Hz|Hp]]; [|lia|].
    + rewrite (Hneg total), (Hsmall (- total)) by lia. reflexivity.
    + rewrite (Hsmall total) by lia. reflexivity.
  - intros Ht. now apply Hpos.
  - intros Ht. rewrite (Hneg total). pose proof (Hpos (- total) Ht). lia.
Qed.

Lemma template_average_witness :
  0 < 500 < Z.abs 5000000000 /\
  TemplateMain.avgDuration 500 5000000000 = Some 0%float /\
  TemplateMain.avgDuration 3 0 = None /\
  TemplateMain.avgDuration 5 (-2) = Some (-2)%float.
Proof.
  split; [lia|]. split; [|split].
  - apply (proj1 (proj2 (proj2 (proj2 (template_average 500 5000000000))))).
    lia.
  - reflexivity.
  - rewrite (proj1 (proj2 (proj2 (template_average 5 (-2)))));
      [vm_compute; reflexivity | unfold max_int64; lia | lia].
Defined.

End RequestFacts.

(** ** More on the run: slots, results, deadlock *)

Module FlowFacts.

Import GoInt GoIntFacts Slice SliceFacts Main Invariants RunFacts ReportFacts.

Lemma undelivered_le (l : list sender_pc) :
  0 <= sumZ undelivered l <= len l.
Proof.
  unfold len. induction l as [|pc t IH]; [simpl; lia|].
  rewrite sumZ_cons. change (List.length (pc :: t)) with (S (List.length t)).
  assert (0 <= undelivered pc <= 1) by (destruct pc; simpl; lia).
  lia.
Qed.

Lemma other_case_ready_false s :
  other_case_ready s = false ->
  respChan s = [] /\ ctxDone s = false /\ timer s <> TFired.
Proof.
  unfold other_case_ready.
  destruct (respChan s), (timer s), (ctxDone s); try discriminate;
    intros _; repeat split; discriminate.
Qed.

Lemma exec_flow cap et s a s' :
  slots_inv cap s -> flow_inv cap s -> exec cap et a s = Some s' ->
  flow_inv cap s'.
Proof.
  intros [S1 S2 S3] [F1 F2 F3] H.
  pose proof (undelivered_le (senders s)) as Hu. unfold len in Hu.
  destruct a; exec_cases H; constructor; simpl;
    try match goal with
        | E : other_case_ready _ = false |- _ =>
            apply other_case_ready_false in E; destruct E as [E1 [E2 E3]];
            rewrite ?E1 in *
        end;
    repeat match goal with
           | E : nth_error _ _ = Some _ |- _ =>
               rewrite ?(sumZ_set_at undelivered _ _ _ _ E),
                 ?(sumZ_remove_at undelivered _ _ _ E);
               pose proof (length_remove_at _ _ _ E);
               clear E
           end;
    rewrite ?sumZ_app, ?len_app1, ?length_app, ?length_set_at;
    unfold len in *; simpl;
    intros; try congruence; try discriminate;
    repeat match goal with
           | E : (_ <? _)%nat = true |- _ => apply Nat.ltb_lt in E
           end;
    try (specialize (F1 ltac:(assumption)));
    try (specialize (F2 ltac:(assumption)));
    try (specialize (F3 ltac:(assumption)));
    try lia; try (simpl in *; lia); try congruence.
Qed.

Lemma reachable_flow cap et s : reachable cap et s -> flow_inv cap s.
Proof.
  intros Hr.
  assert (G : slots_inv cap s /\ flow_inv cap s).
  { revert s Hr. apply reachable_ind'.
    - split; constructor; simpl; try lia; try discriminate; reflexivity.
    - intros s a s' [Hs Hf] He. split.
      + eapply exec_slots; eauto.
      + eapply exec_flow; eauto. }
  apply G.
Qed.

(** X11. No slot leaks before cancellation.  As long as the context is not
    cancelled, [sem] holds exactly one value per live sender: a slot is
    taken only by an admission and given back by the sender it was taken
    for.  A sender that exits through [<-ctx.Done()] keeps its slot taken. *)
Theorem slots_are_senders cap et :
  (forall s, reachable cap et s -> ctxDone s = false ->
     sem s = List.length (senders s)) /\
  (forall s i, nth_error (senders s) i = Some SRelease ->
     ctxDone s = true ->
     exists s', exec cap et (Send i (Select OnDone)) s = Some s' /\
                sem s' = sem s /\
                S (List.length (senders s')) = List.length (senders s)).
Proof.
  split.
  - intros s Hr. apply (fi_noleak _ _ (reachable_flow _ _ _ Hr)).
  - intros s i Hn Hd. eexists. split.
    + unfold exec. rewrite Hn. unfold sendRequest. rewrite Hd. reflexivity.
    + simpl. split; [reflexivity|]. now apply length_remove_at in Hn.
Qed.

Lemma slots_are_senders_witness :
  run 3 0 [DispDefault; DispAdmit; DispDefault; DispAdmit;
           Send 0 (Finished Examples.served); Send 0 (Select OnChannel);
           Send 0 (Select OnChannel)] init
  = Some (mkState 1 [Examples.served] false TArmed DSelect [SRequest] [] 0 0 0 0
                  MWaitCtx []) /\
  sem (mkState 1 [Examples.served] false TArmed DSelect [SRequest] [] 0 0 0 0
               MWaitCtx []) = 1%nat.
Proof.
  assert (H : run 3 0 [DispDefault; DispAdmit; DispDefault; DispAdmit;
                       Send 0 (Finished Examples.served);
                       Send 0 (Select OnChannel);
                       Send 0 (Select OnChannel)] init
              = Some (mkState 1 [Examples.served] false TArmed DSelect
                              [SRequest] [] 0 0 0 0 MWaitCtx []))
    by reflexivity.
  split; [exact H|].
  exact (proj1 (slots_are_senders 3 0) _ (ex_intro _ _ H) eq_refl).
Defined.

(** X12. The wait group.  In every state of a run the counter of the wait
    group is the number of aggregation tasks in flight, so [wg.Done()]
    never takes it below zero and [wg.Wait()] in [main] can return exactly
    when no task is in flight. *)
Theorem wait_group_counts_tasks cap et s :
  reachable cap et s ->
  wg s = len (aggs s) /\ 0 <= wg s /\
  (forall i s', exec cap et (Agg i) s = Some s' -> 0 <= wg s') /\
  (mainG s = MWaitWg ->
   ((exists s', exec cap et MainWgWait s = Some s') <-> aggs s = [])).
Proof.
  intros Hr. pose proof (ai_wg _ (reachable_agg _ _ _ Hr)) as Hw.
  split; [exact Hw|]. split; [rewrite Hw; unfold len; lia|]. split.
  - intros i s' He.
    pose proof (ai_wg _ (reachable_agg _ _ _ (reachable_step _ _ _ _ _ Hr He)))
      as Hw'.
    rewrite Hw'. unfold len. lia.
  - intros Hm. unfold exec. rewrite Hm, Hw. split.
    + intros [s' He]. destruct (aggs s); [reflexivity|].
      unfold len in He. simpl in He. discriminate.
    + intros ->. eexists. reflexivity.
Qed.

Lemma wait_group_counts_tasks_witness :
  run 1 0 [DispDefault; DispAdmit; Send 0 (Finished Examples.refused);
           Send 0 (Select OnChannel); DispRecv; Agg 0] init
  = Some (mkState 1 [] false TArmed DSelect [SRelease] [(ASent, Examples.refused)]
                  1 1 0 0 MWaitCtx [Examples.refused]) /\
  wg (mkState 1 [] false TArmed DSelect [SRelease] [(ASent, Examples.refused)]
              1 1 0 0 MWaitCtx [Examples.refused]) = 1.
Proof.
  assert (H : run 1 0 [DispDefault; DispAdmit;
                       Send 0 (Finished Examples.refused);
                       Send 0 (Select OnChannel); DispRecv; Agg 0] init
              = Some (mkState 1 [] false TArmed DSelect [SRelease]
                              [(ASent, Examples.refused)] 1 1 0 0 MWaitCtx
                              [Examples.refused]))
    by (vm_compute; reflexivity).
  split; [exact H|].
  exact (proj1 (wait_group_counts_tasks 1 0 _ (ex_intro _ _ H))).
Defined.

Lemma agg_can_step cap et s t rest :
  aggs s = t :: rest -> exists s', exec cap et (Agg 0) s = Some s'.
Proof.
  intros Ha. unfold exec. rewrite Ha. simpl. destruct t as [pc r].
  destruct pc; simpl; eexists; reflexivity.
Qed.

Lemma sender_can_step cap et s pc rest :
  slots_inv (S cap) s -> flow_inv (S cap) s ->
  senders s = pc :: rest ->
  exists a s', environment a = false /\ exec (S cap) et a s = Some s'.
Proof.
  intros [S1 S2 S3] [F1 F2 F3] Hs. rewrite Hs in *. simpl in S1.
  destruct pc as [|r|].
  - exists (Send 0 (Finished (mkResult 0 None 0))). eexists.
    split; [reflexivity|]. unfold exec. rewrite Hs. reflexivity.
  - destruct (List.length (respChan s) <? S cap)%nat eqn:Er.
    + exists (Send 0 (Select OnChannel)). eexists. split; [reflexivity|].
      unfold exec. rewrite Hs. simpl. rewrite Er. reflexivity.
    + apply Nat.ltb_ge in Er.
      destruct (ctxDone s) eqn:Ed.
      * exists (Send 0 (Select OnDone)). eexists. split; [reflexivity|].
        unfold exec. rewrite Hs. simpl. rewrite Ed. reflexivity.
      * destruct (disp s) eqn:Edisp.
        -- destruct (respChan s) as [|res more] eqn:Ec; [simpl in Er; lia|].
           exists DispRecv. eexists. split; [reflexivity|].
           unfold exec. rewrite Edisp, Ec. reflexivity.
        -- exfalso. specialize (F2 eq_refl).
           rewrite sumZ_cons in F2. simpl undelivered in F2.
           pose proof (undelivered_le rest) as Hu. unfold len in *. lia.
        -- specialize (F3 eq_refl). congruence.
  - destruct (sem s) as [|n] eqn:Es; [lia|].
    exists (Send 0 (Select OnChannel)). eexists. split; [reflexivity|].
    unfold exec. rewrite Hs. simpl. rewrite Es. reflexivity.
Qed.

Lemma dispatcher_can_step cap et s :
  flow_inv (S cap) s -> senders s = [] -> disp s <> DReturned ->
  exists a s', environment a = false /\ exec (S cap) et a s = Some s'.
Proof.
  intros [F1 F2 F3] Hs Hd. destruct (disp s) eqn:Edisp; [| |contradiction].
  - destruct (other_case_ready s) eqn:Eo.
    + unfold other_case_ready in Eo.
      destruct (respChan s) as [|res more] eqn:Ec.
      * destruct (ctxDone s) eqn:Ed.
        -- exists DispDone. eexists. split; [reflexivity|].
           unfold exec. rewrite Edisp, Ed. reflexivity.
        -- destruct (timer s) eqn:Et; try discriminate.
           exists DispTimer.
           destruct (et =? 0) eqn:E0; eexists; (split; [reflexivity|]);
             unfold exec; rewrite Edisp, Et, E0; reflexivity.
      * exists DispRecv. eexists. split; [reflexivity|].
        unfold exec. rewrite Edisp, Ec. reflexivity.
    + exists DispDefault. eexists. split; [reflexivity|].
      unfold exec. rewrite Edisp, Eo. reflexivity.
  - destruct (ctxDone s) eqn:Ed.
    + exists DispAdmitCancelled. eexists. split; [reflexivity|].
      unfold exec. rewrite Edisp, Ed. reflexivity.
    + exists DispAdmit. eexists. split; [reflexivity|].
      unfold exec. rewrite Edisp. rewrite (F1 eq_refl), Hs. reflexivity.
Qed.

(** X13. No deadlock.  In every state of a run with capacity at least 1, as
    long as [main] has not reported, some goroutine of the program can
    take a step, without any help from the timer or from an interrupt: a
    task can add to a counter, a sender can finish, deliver, give up or
    release, the dispatcher can admit, receive or return, or [main] can go
    on.  In particular senders that wait to deliver into a full result
    channel never wait for a dispatcher that waits for a slot. *)
Theorem no_deadlock cap et s :
  reachable (S cap) et s ->
  (exists rep, mainG s = MReported rep) \/
  (exists a s', environment a = false /\ exec (S cap) et a s = Some s').
Proof.
  intros Hr.
  pose proof (reachable_slots _ _ _ Hr) as Hs.
  pose proof (reachable_flow _ _ _ Hr) as Hf.
  pose proof (ai_wg _ (reachable_agg _ _ _ Hr)) as Hw.
  destruct (aggs s) as [|t rest] eqn:Ea.
  2:{ right. destruct (agg_can_step (S cap) et s t rest Ea) as [s' He].
      exists (Agg 0), s'. split; [reflexivity | exact He]. }
  destruct (senders s) as [|pc more] eqn:Es.
  2:{ right. eapply sender_can_step; eauto. }
  destruct (disp s) eqn:Ed.
  - right. apply dispatcher_can_step; [assumption | assumption | congruence].
  - right. apply dispatcher_can_step; [assumption | assumption | congruence].
  - pose proof (fi_returned _ _ Hf Ed) as Hdone.
    destruct (mainG s) as [| | |rep] eqn:Em.
    + right. exists MainCtxDone. eexists. split; [reflexivity|].
      unfold exec. rewrite Em, Hdone. reflexivity.
    + right. exists MainWgWait. eexists. split; [reflexivity|].
      unfold exec. rewrite Em, Hw. reflexivity.
    + right. exists (MainReport 0). eexists. split; [reflexivity|].
      unfold exec. rewrite Em. reflexivity.
    + left. now exists rep.
Qed.

Lemma no_deadlock_witness :
  run 1 0 [DispDefault; DispAdmit; DispDefault;
           Send 0 (Finished Examples.served); Send 0 (Select OnChannel);
           Send 0 (Select OnChannel); DispAdmit;
           Send 0 (Finished Examples.refused)] init
  = Some (mkState 1 [Examples.served] false TArmed DSelect
                  [SDeliver Examples.refused] [] 0 0 0 0 MWaitCtx []) /\
  exec 1 0 (Send 0 (Select OnChannel))
       (mkState 1 [Examples.served] false TArmed DSelect
                [SDeliver Examples.refused] [] 0 0 0 0 MWaitCtx []) = None /\
  exists a s', environment a = false /\
    exec 1 0 a (mkState 1 [Examples.served] false TArmed DSelect
                        [SDeliver Examples.refused] [] 0 0 0 0 MWaitCtx [])
    = Some s'.
Proof.
  assert (H : run 1 0 [DispDefault; DispAdmit; DispDefault;
                       Send 0 (Finished Examples.served);
                       Send 0 (Select OnChannel); Send 0 (Select OnChannel);
                       DispAdmit;
                       Send 0 (Finished Examples.refused)] init
              = Some (mkState 1 [Examples.served] false TArmed DSelect
                              [SDeliver Examples.refused] [] 0 0 0 0
                              MWaitCtx []))
    by reflexivity.
  split; [exact H|]. split; [reflexivity|].
  destruct (no_deadlock 0 0 _ (ex_intro _ _ H)) as [[rep Hrep]|Hstep].
  - discriminate Hrep.
  - exact Hstep.
Defined.

Lemma sumZ_perm {A} (f : A -> Z) l l' :
  Permutation l l' -> sumZ f l = sumZ f l'.
Proof.
  induction 1 as [|x l l' _ IH|x y l|l l' l'' _ IH1 _ IH2];
    rewrite ?sumZ_cons; lia.
Qed.

Lemma quiescent_counters cap et s :
  reachable cap et s -> aggs s = [] ->
  errCount s = int64 (errs_of (received s)) /\
  sentRequestCount s = int64 (len (received s)) /\
  totalDuration s = int64 (durs_of (received s)).
Proof.
  intros Hr Ha. destruct (reachable_agg _ _ _ Hr) as [He Hs Hd _ _ _ _].
  unfold errs_done, sent_done, durs_done in *. rewrite Ha in *.
  change (sumZ pend_err []) with 0 in He.
  change (sumZ pend_sent []) with 0 in Hs.
  change (sumZ pend_dur []) with 0 in Hd.
  rewrite Z.sub_0_r in *. repeat split; assumption.
Qed.

(** X14. The order of the results does not matter.  Two runs, of whatever
    capacity and interleaving, that have received the same results up to
    order and have no aggregation task in flight hold the same three
    counters, wrap-around included. *)
Theorem counters_ignore_order cap et cap' et' s s' :
  reachable cap et s -> reachable cap' et' s' ->
  aggs s = [] -> aggs s' = [] ->
  Permutation (received s) (received s') ->
  errCount s = errCount s' /\
  sentRequestCount s = sentRequestCount s' /\
  totalDuration s = totalDuration s'.
Proof.
  intros Hr Hr' Ha Ha' Hp.
  destruct (quiescent_counters _ _ _ Hr Ha) as [He [Hs Hd]].
  destruct (quiescent_counters _ _ _ Hr' Ha') as [He' [Hs' Hd']].
  rewrite He, Hs, Hd, He', Hs', Hd'.
  unfold errs_of, durs_of, len.
  rewrite (sumZ_perm err_weight _ _ Hp), (sumZ_perm duration _ _ Hp),
    (Permutation_length Hp).
  repeat split.
Qed.

Lemma counters_ignore_order_witness :
  run 1 0 (Examples.consume_block Examples.refused
           ++ Examples.consume_block Examples.served) init
  = Some (mkState 0 [] false TArmed DSelect [] [] 0 1 2 1007 MWaitCtx
                  [Examples.refused; Examples.served]) /\
  run 2 5 (Examples.consume_block Examples.served
           ++ Examples.consume_block Examples.refused) init
  = Some (mkState 0 [] false TArmed DSelect [] [] 0 1 2 1007 MWaitCtx
                  [Examples.served; Examples.refused]) /\
  totalDuration
    (mkState 0 [] false TArmed DSelect [] [] 0 1 2 1007 MWaitCtx
             [Examples.refused; Examples.served])
  = totalDuration
      (mkState 0 [] false TArmed DSelect [] [] 0 1 2 1007 MWaitCtx
               [Examples.served; Examples.refused]).
Proof.
  assert (H1 : run 1 0 (Examples.consume_block Examples.refused
                        ++ Examples.consume_block Examples.served) init
               = Some (mkState 0 [] false TArmed DSelect [] [] 0 1 2 1007
                               MWaitCtx [Examples.refused; Examples.served]))
    by (vm_compute; reflexivity).
  assert (H2 : run 2 5 (Examples.consume_block Examples.served
                        ++ Examples.consume_block Examples.refused) init
               = Some (mkState 0 [] false TArmed DSelect [] [] 0 1 2 1007
                               MWaitCtx [Examples.served; Examples.refused]))
    by (vm_compute; reflexivity).
  split; [exact H1|]. split; [exact H2|].
  apply (counters_ignore_order 1 0 2 5 _ _
           (ex_intro _ _ H1) (ex_intro _ _ H2) eq_refl eq_refl).
  apply perm_swap.
Defined.

(** X15. After the dispatcher has returned.  From then on, whatever
    happens, the dispatcher stays returned, no result is received, no
    sender and no aggregation task is started, and what senders still
    deliver stays in the result channel: results that are in the channel
    or arrive there after the dispatcher returned are never counted. *)
Theorem nothing_received_after_return cap et acts : forall s s',
  disp s = DReturned -> run cap et acts s = Some s' ->
  disp s' = DReturned /\ received s' = received s /\
  (List.length (senders s') <= List.length (senders s))%nat /\
  (List.length (aggs s') <= List.length (aggs s))%nat /\
  exists more, respChan s' = respChan s ++ more.
Proof.
  induction acts as [|a rest IH]; intros s s' Hd Hr; simpl in Hr.
  - injection Hr as <-. repeat split; try lia; try assumption.
    exists []. now rewrite app_nil_r.
  - destruct (exec cap et a s) as [s1|] eqn:E; [|discriminate].
    destruct (exec_after_return _ _ _ _ _ Hd E) as [H1 [H2 [H3 [H4 [m1 H5]]]]].
    destruct (IH _ _ H1 Hr) as [G1 [G2 [G3 [G4 [m2 G5]]]]].
    repeat split; try congruence; try lia.
    exists (m1 ++ m2). rewrite G5, H5. now rewrite app_assoc.
Qed.

Lemma nothing_received_after_return_witness :
  run 1 0 [DispDefault; DispAdmit; Send 0 (Finished Examples.served);
           Interrupt; DispDone; MainCtxDone] init
  = Some (mkState 1 [] true TArmed DReturned [SDeliver Examples.served] []
                  0 0 0 0 MWaitWg []) /\
  run 1 0 [Send 0 (Select OnChannel); Send 0 (Select OnChannel); MainWgWait;
           MainReport 1000000000]
      (mkState 1 [] true TArmed DReturned [SDeliver Examples.served] []
               0 0 0 0 MWaitWg [])
  = Some (mkState 0 [Examples.served] true TArmed DReturned [] [] 0 0 0 0
                  (MReported (finalReport 0 0 0 1000000000)) []) /\
  received (mkState 0 [Examples.served] true TArmed DReturned [] [] 0 0 0 0
                    (MReported (finalReport 0 0 0 1000000000)) []) = [].
Proof.
  split; [reflexivity|].
  assert (H : run 1 0 [Send 0 (Select OnChannel); Send 0 (Select OnChannel);
                       MainWgWait; MainReport 1000000000]
                (mkState 1 [] true TArmed DReturned [SDeliver Examples.served]
                         [] 0 0 0 0 MWaitWg [])
              = Some (mkState 0 [Examples.served] true TArmed DReturned [] []
                              0 0 0 0
                              (MReported (finalReport 0 0 0 1000000000)) []))
    by reflexivity.
  split; [exact H|].
  exact (proj1 (proj2 (nothing_received_after_return 1 0 _
           (mkState 1 [] true TArmed DReturned [SDeliver Examples.served] []
                    0 0 0 0 MWaitWg [])
           _ eq_refl H))).
Defined.

Lemma admissions_cons a acts :
  admissions (a :: acts) = (if is_admit a then 1 else 0) + admissions acts.
Proof.
  unfold admissions, len. cbn [filter].
  destruct (is_admit a); cbn [List.length]; lia.
Qed.

Lemma exec_tracked cap et s a s' :
  exec cap et a s = Some s' ->
  results_tracked s' <= results_tracked s + (if is_admit a then 1 else 0) /\
  (ctxDone s' = false ->
   results_tracked s' = results_tracked s + (if is_admit a then 1 else 0)).
Proof.
  intros H. unfold results_tracked.
  destruct a; exec_cases H;
    repeat match goal with
           | E : nth_error _ _ = Some _ |- _ =>
               rewrite ?(sumZ_set_at undelivered _ _ _ _ E),
                 ?(sumZ_remove_at undelivered _ _ _ E);
               clear E
           end;
    rewrite ?sumZ_app, ?len_app1;
    repeat match goal with
           | E : respChan _ = _ :: _ |- _ => rewrite E
           end;
    unfold len; simpl; split; intros; try congruence; try lia.
Qed.

Lemma run_ctxDone_stable cap et acts : forall s s',
  run cap et acts s = Some s' -> ctxDone s = true -> ctxDone s' = true.
Proof.
  induction acts as [|a rest IH]; intros s s' Hr Hd; simpl in Hr.
  - now injection Hr as <-.
  - destruct (exec cap et a s) as [s1|] eqn:E; [|discriminate].
    eapply IH; [exact Hr|]. eapply exec_ctxDone_stable; eauto.
Qed.

Lemma run_tracked cap et acts : forall s s',
  run cap et acts s = Some s' ->
  results_tracked s' <= results_tracked s + admissions acts /\
  (ctxDone s' = false ->
   results_tracked s' = results_tracked s + admissions acts).
Proof.
  induction acts as [|a rest IH]; intros s s' Hr; simpl in Hr.
  - injection Hr as <-. unfold admissions, len. simpl. split; intros; lia.
  - destruct (exec cap et a s) as [s1|] eqn:E; [|discriminate].
    destruct (exec_tracked _ _ _ _ _ E) as [H1 H2].
    destruct (IH _ _ Hr) as [G1 G2].
    rewrite admissions_cons. split; [lia|].
    intros Hd. rewrite (G2 Hd).
    destruct (ctxDone s1) eqn:Ed1.
    + pose proof (run_ctxDone_stable _ _ _ _ _ Hr Ed1). congruence.
    + rewrite (H2 eq_refl). lia.
Qed.

(** X16. One result per admission.  In a run, the results received, those
    buffered in the result channel and those still owed by live senders are
    together at most as many as the admissions made, and exactly as many
    as long as the context is not cancelled: before shutdown no result is
    lost and none is made up; in particular never more results are
    received than requests were admitted. *)
Theorem one_result_per_admission cap et acts s :
  run cap et acts init = Some s ->
  results_tracked s <= admissions acts /\
  len (received s) <= admissions acts /\
  (ctxDone s = false -> results_tracked s = admissions acts).
Proof.
  intros Hr. destruct (run_tracked _ _ _ _ _ Hr) as [H1 H2].
  change (results_tracked init) with 0 in H1, H2.
  pose proof (undelivered_le (senders s)) as Hu.
  unfold results_tracked, len in *.
  split; [lia|]. split; [lia|]. intros Hd. rewrite (H2 Hd). lia.
Qed.

Lemma one_result_per_admission_witness :
  run 2 0 [DispDefault; DispAdmit; DispDefault; DispAdmit;
           Send 1 (Finished Examples.refused); Send 1 (Select OnChannel);
           DispRecv] init
  = Some (mkState 2 [] false TArmed DSelect [SRequest; SRelease]
                  [(AErr, Examples.refused)] 1 0 0 0 MWaitCtx
                  [Examples.refused]) /\
  results_tracked
    (mkState 2 [] false TArmed DSelect [SRequest; SRelease]
             [(AErr, Examples.refused)] 1 0 0 0 MWaitCtx [Examples.refused])
  = 2.
Proof.
  assert (H : run 2 0 [DispDefault; DispAdmit; DispDefault; DispAdmit;
                       Send 1 (Finished Examples.refused);
                       Send 1 (Select OnChannel); DispRecv] init
              = Some (mkState 2 [] false TArmed DSelect [SRequest; SRelease]
                              [(AErr, Examples.refused)] 1 0 0 0 MWaitCtx
                              [Examples.refused]))
    by reflexivity.
  split; [exact H|].
  exact (proj2 (proj2 (one_result_per_admission 2 0 _ _ H)) eq_refl).
Defined.

End FlowFacts.

(** ** Shutting a run down *)

Module ShutdownFacts.

Import GoInt Slice SliceFacts Main Invariants RunFacts FlowFacts.

Lemma reachable_run cap et acts : forall s s',
  reachable cap et s -> run cap et acts s = Some s' -> reachable cap et s'.
Proof.
  induction acts as [|a rest IH]; intros s s' Hr H; simpl in H.
  - now injection H as <-.
  - destruct (exec cap et a s) as [s1|] eqn:E; [|discriminate].
    eapply IH; [|exact H]. eapply reachable_step; eauto.
Qed.

Lemma program_only_app a b :
  program_only a -> program_only b -> program_only (a ++ b).
Proof.
  unfold program_only. intros Ha Hb. now rewrite forallb_app, Ha, Hb.
Qed.

Lemma head_sender_exits cap et s pc rest :
  senders s = pc :: rest -> ctxDone s = true ->
  exists acts, program_only acts /\
               run cap et acts s = Some (set_senders rest s).
Proof.
  intros Hs Hd. destruct s. simpl in Hs, Hd. subst.
  destruct pc as [|r|].
  - exists [Send 0 (Finished (mkResult 0 None 0)); Send 0 (Select OnDone);
            Send 0 (Select OnDone)]. split; reflexivity.
  - exists [Send 0 (Select OnDone); Send 0 (Select OnDone)]. split; reflexivity.
  - exists [Send 0 (Select OnDone)]. split; reflexivity.
Qed.

Lemma senders_exit cap et : forall l s,
  senders s = l -> ctxDone s = true ->
  exists acts, program_only acts /\
               run cap et acts s = Some (set_senders [] s).
Proof.
  induction l as [|pc rest IH]; intros s Hs Hd.
  - exists []. split; [reflexivity|]. simpl. destruct s. simpl in Hs. now subst.
  - destruct (head_sender_exits cap et s pc rest Hs Hd) as [a1 [P1 H1]].
    destruct (IH (set_senders rest s) eq_refl Hd) as [a2 [P2 H2]].
    exists (a1 ++ a2). split; [now apply program_only_app|].
    rewrite run_app, H1, H2. reflexivity.
Qed.

Lemma head_task_steps cap et s t rest :
  aggs s = t :: rest ->
  exists s', exec cap et (Agg 0) s = Some s' /\
             senders s' = senders s /\ ctxDone s' = ctxDone s /\
             disp s' = disp s /\ mainG s' = mainG s /\
             sumZ steps_left (aggs s') = sumZ steps_left (aggs s) - 1.
Proof.
  intros Ha. destruct t as [pc r]. unfold exec. rewrite Ha.
  cbn [nth_error]. unfold processResponse.
  destruct pc; [destruct (is_nil (err r))| | |];
    eexists; (split; [reflexivity|]); unfold_setters;
    cbn [aggs senders ctxDone disp mainG set_at remove_at];
    rewrite ?Ha, ?sumZ_cons; unfold steps_left; cbn [fst];
    repeat split; lia.
Qed.

Lemma steps_left_pos (l : list (agg_pc * Result)) :
  0 <= sumZ steps_left l /\ (sumZ steps_left l = 0 -> l = []).
Proof.
  induction l as [|[pc r] t [IH _]]; [split; [simpl; lia | reflexivity]|].
  rewrite sumZ_cons.
  assert (1 <= steps_left (pc, r)) by (destruct pc; unfold steps_left; simpl; lia).
  split; [lia|]. intros Hz. lia.
Qed.

Lemma tasks_finish cap et : forall n s,
  sumZ steps_left (aggs s) <= Z.of_nat n ->
  exists acts s', program_only acts /\
                  run cap et acts s = Some s' /\ aggs s' = [] /\
                  senders s' = senders s /\ ctxDone s' = ctxDone s /\
                  disp s' = disp s /\ mainG s' = mainG s.
Proof.
  induction n as [|n IH]; intros s Hn.
  - exists [], s. split; [reflexivity|]. split; [reflexivity|]. repeat split.
    destruct (steps_left_pos (aggs s)) as [H0 Hz]. apply Hz. lia.
  - destruct (aggs s) as [|t rest] eqn:Ea.
    + exists [], s. repeat split; assumption.
    + destruct (head_task_steps cap et s t rest Ea)
        as [s1 [He [F1 [F2 [F3 [F4 Hm]]]]]].
      destruct (IH s1) as [acts [s' [Hp [Hr [G0 [G1 [G2 [G3 G4]]]]]]]].
      { rewrite Hm, Ea. lia. }
      exists (Agg 0 :: acts), s'. split; [exact Hp|].
      cbn [run]. rewrite He.
      repeat split; congruence.
Qed.

Lemma dispatcher_returns cap et s :
  ctxDone s = true ->
  exists acts s', program_only acts /\
                  run cap et acts s = Some s' /\ disp s' = DReturned /\
                  senders s' = senders s /\ aggs s' = aggs s /\
                  ctxDone s' = true /\ mainG s' = mainG s.
Proof.
  intros Hd. destruct (disp s) eqn:Ed.
  - exists [DispDone]. eexists. split; [reflexivity|]. split.
    + simpl. unfold exec. rewrite Ed, Hd. reflexivity.
    + repeat split; assumption.
  - exists [DispAdmitCancelled]. eexists. split; [reflexivity|]. split.
    + simpl. unfold exec. rewrite Ed, Hd. reflexivity.
    + repeat split; assumption.
  - exists [], s. repeat split; assumption.
Qed.

Lemma main_reports cap et s :
  ctxDone s = true -> wg s = 0 ->
  exists acts s', program_only acts /\
                  run cap et acts s = Some s' /\
                  (exists rep, mainG s' = MReported rep) /\
                  senders s' = senders s /\ aggs s' = aggs s /\
                  disp s' = disp s.
Proof.
  intros Hd Hw. destruct s. simpl in Hd, Hw. subst.
  destruct mainG0 as [| | |rep].
  - exists [MainCtxDone; MainWgWait; MainReport 0]. eexists.
    split; [reflexivity|]. split; [reflexivity|]. simpl.
    split; [eexists; reflexivity|]. repeat split.
  - exists [MainWgWait; MainReport 0]. eexists.
    split; [reflexivity|]. split; [reflexivity|]. simpl.
    split; [eexists; reflexivity|]. repeat split.
  - exists [MainReport 0]. eexists.
    split; [reflexivity|]. split; [reflexivity|]. simpl.
    split; [eexists; reflexivity|]. repeat split.
  - exists []. eexists.
    split; [reflexivity|]. split; [reflexivity|]. simpl.
    split; [eexists; reflexivity|]. repeat split.
Qed.

(** X17. A run can always be shut down.  From every state of a run, an
    interrupt can be followed by steps of the program alone after which no
    sender and no aggregation task is left, the dispatcher has returned and
    [main] has made its report: no state is reached from which the
    goroutines could not all come to their end. *)
Theorem shutdown_can_complete cap et s :
  reachable cap et s ->
  exists acts s',
    program_only acts /\
    run cap et (Interrupt :: acts) s = Some s' /\
    shut_down s'.
Proof.
  intros Hr.
  set (s0 := set_ctxDone true s).
  assert (H0 : exec cap et Interrupt s = Some s0) by reflexivity.
  assert (Hd0 : ctxDone s0 = true) by reflexivity.
  destruct (senders_exit cap et (senders s0) s0 eq_refl Hd0) as [a1 [Q1 H1]].
  set (s1 := set_senders [] s0) in *.
  destruct (tasks_finish cap et (Z.to_nat (sumZ steps_left (aggs s1))) s1)
    as [a2 [s2 [Q2 [H2 [A2 [S2 [D2 [P2 M2]]]]]]]].
  { pose proof (steps_left_pos (aggs s1)). lia. }
  destruct (dispatcher_returns cap et s2)
    as [a3 [s3 [Q3 [H3 [P3 [S3 [A3 [D3 M3]]]]]]]].
  { rewrite D2. reflexivity. }
  assert (Hr3 : reachable cap et s3).
  { eapply reachable_run; [|exact H3]. eapply reachable_run; [|exact H2].
    eapply reachable_run; [|exact H1]. eapply reachable_step; eauto. }
  assert (Hw3 : wg s3 = 0).
  { rewrite (ai_wg _ (reachable_agg _ _ _ Hr3)), A3, A2. reflexivity. }
  destruct (main_reports cap et s3 D3 Hw3)
    as [a4 [s4 [Q4 [H4 [R4 [S4 [A4 P4]]]]]]].
  exists (a1 ++ a2 ++ a3 ++ a4), s4. split; [|split].
  - repeat apply program_only_app; assumption.
  - change (run cap et (Interrupt :: a1 ++ a2 ++ a3 ++ a4) s)
      with (run cap et (a1 ++ a2 ++ a3 ++ a4) s0).
    rewrite run_app, H1, run_app, H2, run_app, H3.
    exact H4.
  - unfold shut_down. rewrite S4, S3, S2, A4, A3, A2, P4, P3.
    repeat split; try reflexivity. exact R4.
Qed.

Lemma shutdown_can_complete_witness :
  run 2 0 [DispDefault; DispAdmit; DispDefault; DispAdmit;
           Send 1 (Finished Examples.refused); Send 1 (Select OnChannel);
           DispRecv] init
  = Some (mkState 2 [] false TArmed DSelect [SRequest; SRelease]
                  [(AErr, Examples.refused)] 1 0 0 0 MWaitCtx
                  [Examples.refused]) /\
  exists acts s',
    program_only acts /\
    run 2 0 (Interrupt :: acts)
        (mkState 2 [] false TArmed DSelect [SRequest; SRelease]
                 [(AErr, Examples.refused)] 1 0 0 0 MWaitCtx
                 [Examples.refused]) = Some s' /\
    shut_down s'.
Proof.
  assert (H : run 2 0 [DispDefault; DispAdmit; DispDefault; DispAdmit;
                       Send 1 (Finished Examples.refused);
                       Send 1 (Select OnChannel); DispRecv] init
              = Some (mkState 2 [] false TArmed DSelect [SRequest; SRelease]
                              [(AErr, Examples.refused)] 1 0 0 0 MWaitCtx
                              [Examples.refused]))
    by reflexivity.
  exact (conj H (shutdown_can_complete 2 0 _ (ex_intro _ _ H))).
Defined.

End ShutdownFacts.
